(** * NarratoAI: keyframe extraction (app/utils/video_processor_v2.py)

    A shallow embedding of the [VideoProcessor] class: shot boundary
    detection by frame differencing, one representative frame per shot,
    the keyframe archive and its recovery scan, the high resolution
    extraction with its per-second deduplication, and the two-pass
    pipeline with its cleanup.

    Conventions of the embedding.
    - Python integers are [Z]; list positions produced by [range] are [Z]
      as well and are converted with [Z.to_nat] at the lookup.
    - numpy and sklearn compute in float64; the model computes the same
      quantities in exact rationals ([Q]).  All quantities compared in
      the code are quotients of integers bounded by the image size, far
      from the precision limit of float64.
    - Stateful code is written in a state-and-exception monad over an
      explicit state (decode context, file system, event trace). *)

From Stdlib Require Import ZArith QArith Qround String Ascii.
From Stdlib Require Import DecimalString DecimalN DecimalFacts.
From stdpp Require Import base numbers strings sorting gmap sets list.

Open Scope Z_scope.

(** ** Python primitives used by the class *)

Module Py.

(** [str.endswith]: some suffix of [s] is [suffix]. *)
Fixpoint endswith (s suffix : string) : bool :=
  String.eqb s suffix ||
  match s with
  | EmptyString => false
  | String _ s' => endswith s' suffix
  end.

(** The decimal digits matched by [\d] on the file names the class
    produces (ASCII). *)
Definition is_digit (c : ascii) : bool :=
  match c with
  | "0" | "1" | "2" | "3" | "4" | "5" | "6" | "7" | "8" | "9" => true
  | _ => false
  end%char.

Fixpoint zeros (n : nat) : string :=
  match n with
  | O => EmptyString
  | S n' => String "0"%char (zeros n')
  end.

(** [str(n)] for a natural number. *)
Definition digits_of_N (n : N) : string :=
  NilZero.string_of_uint (N.to_uint n).

(** The format specification [{z:0{width}d}]: sign-aware zero padding
    to at least [width] characters. *)
Definition format_d (width : nat) (z : Z) : string :=
  let ds := digits_of_N (Z.to_N (Z.abs z)) in
  if z <? 0
  then String "-"%char
         (zeros (width - 1 - String.length ds) +:+ ds)
  else zeros (width - String.length ds) +:+ ds.

(** [int(s)] on a string of decimal digits (leading zeros allowed);
    [None] stands for [ValueError]. *)
Definition int_of_digits (s : string) : option Z :=
  match NilZero.uint_of_string s with
  | Some d => Some (Z.of_N (N.of_uint d))
  | None => None
  end.

(** [int(x)] on a rational: truncation toward zero. *)
Definition int_of_Q (q : Q) : Z := Z.quot (Qnum q) (Zpos (Qden q)).

(** [l[start:]] and [l[start:stop]] with Python's treatment of negative
    and out-of-range bounds. *)
Definition clamp_index (len i : Z) : Z :=
  if i <? 0 then Z.max 0 (i + len) else Z.min i len.

Definition slice {A} (l : list A) (start stop : Z) : list A :=
  let len := Z.of_nat (length l) in
  let s := clamp_index len start in
  let e := clamp_index len stop in
  take (Z.to_nat (e - s)) (drop (Z.to_nat s) l).

Definition slice_from {A} (l : list A) (start : Z) : list A :=
  drop (Z.to_nat (clamp_index (Z.of_nat (length l)) start)) l.

(** [l[i]], negative positions counting from the end; [None] stands
    for [IndexError]. *)
Definition index {A} (l : list A) (i : Z) : option A :=
  let len := Z.of_nat (length l) in
  if i <? 0
  then (if i + len <? 0 then None else l !! Z.to_nat (i + len))
  else l !! Z.to_nat i.

(** [range(a, b)] *)
Definition range (a b : Z) : list Z := seqZ a (b - a).

End Py.

(** ** The fragment of [re] used by the recovery scan

    A pattern is a sequence of items; [\d+] is greedy and backtracks, as
    in Python's matcher.  [match_items] returns the captured groups of
    the first successful way to match. *)

Module Re.

Inductive item :=
| Chr (c : ascii)          (* a literal character *)
| Digits1 (capture : bool) (* \d+ , optionally a capturing group *)
| EndAnchor.               (* $ *)

Definition at_end (s : string) : bool :=
  match s with
  | EmptyString => true
  | String c EmptyString => Ascii.eqb c "010"%char
  | _ => false
  end.

(** [\d+] followed by the continuation [k]: take one digit, then
    prefer taking more, and fall back on [k] at this point. *)
Fixpoint digits1 (k : string → option (list string)) (capture : bool)
    (acc s : string) : option (list string) :=
  match s with
  | String c s' =>
      if Py.is_digit c then
        let acc' := acc +:+ String c EmptyString in
        match digits1 k capture acc' s' with
        | Some groups => Some groups
        | None =>
            match k s' with
            | Some groups => Some (if capture then acc' :: groups else groups)
            | None => None
            end
        end
      else None
  | EmptyString => None
  end.

Fixpoint match_items (p : list item) : string → option (list string) :=
  match p with
  | [] => fun _ => Some []
  | Chr c :: p' => fun s =>
      match s with
      | String c' s' => if Ascii.eqb c c' then match_items p' s' else None
      | EmptyString => None
      end
  | EndAnchor :: p' => fun s =>
      if at_end s then match_items p' s else None
  | Digits1 capture :: p' => digits1 (match_items p') capture EmptyString
  end.

(** [pattern.search(s)]: the leftmost position at which the pattern
    matches. *)
Fixpoint search (p : list item) (s : string) : option (list string) :=
  match match_items p s with
  | Some groups => Some groups
  | None =>
      match s with
      | String _ s' => search p s'
      | EmptyString => None
      end
  end.

Definition literal (s : string) : list item :=
  Chr <$> list_ascii_of_string s.

End Re.

(** ** Exceptions, results and the state monad *)

(** The messages of the [ValueError]s raised by the class and by the
    numeric libraries it calls. *)
Inductive value_error :=
| NoFrameNumbers       (* "未提供帧号列表" *)
| InvalidFrameNumber   (* "存在无效的帧号" *)
| NoFramesLeft         (* "跳过 ... 秒后没有剩余帧可以处理" *)
| NoValidKeyframes     (* "未能从压缩视频中提取到有效的关键帧" *)
| EmptyShot            (* KMeans.fit on an array without samples *)
| ShapeMismatch.       (* numpy: operands of different shapes *)

Inductive exn :=
| ValueError (m : value_error)
| FileNotFoundError
| OSError
| RuntimeError
| AttributeError
| CalledProcessError
| ZeroDivisionError
| IndexError
| Cv2Error.

(** The names the specification gives to two of them. *)
Abbreviation InvalidIndex := (ValueError InvalidFrameNumber).
Abbreviation NoKeyframesFound := (ValueError NoValidKeyframes).

Inductive Result (A : Type) :=
| Ok (a : A)
| Err (e : exn).
Arguments Ok {A} a.
Arguments Err {A} e.

Global Instance Result_ret : MRet Result := λ A a, Ok a.
Global Instance Result_bind : MBind Result := λ A B f r,
  match r with
  | Ok a => f a
  | Err e => Err e
  end.

Definition is_Ok {A} (r : Result A) : bool :=
  match r with Ok _ => true | Err _ => false end.

Definition of_option {A} (e : exn) (o : option A) : Result A :=
  match o with Some a => Ok a | None => Err e end.

(** A computation over a state [S] that may raise: the state reached
    when the exception is raised is kept. *)
Definition M (S A : Type) : Type := S → Result A * S.

Global Instance M_ret {S} : MRet (M S) := λ A a s, (Ok a, s).
Global Instance M_bind {S} : MBind (M S) := λ A B f m s,
  match m s with
  | (Ok a, s') => f a s'
  | (Err e, s') => (Err e, s')
  end.

Definition raise {S A} (e : exn) : M S A := λ s, (Err e, s).
Definition get {S} : M S S := λ s, (Ok s, s).
Definition gets {S A} (f : S → A) : M S A := λ s, (Ok (f s), s).
Definition modify {S} (f : S → S) : M S unit := λ s, (Ok tt, f s).
Definition lift_result {S A} (r : Result A) : M S A := λ s, (r, s).

(** [try: body  except Exception: handler; raise] *)
Definition try_except_reraise {S A} (body : M S A) (handler : M S unit)
  : M S A := λ s,
  match body s with
  | (Ok a, s') => (Ok a, s')
  | (Err e, s') =>
      match handler s' with
      | (Ok _, s'') => (Err e, s'')
      | (Err e', s'') => (Err e', s'')
      end
  end.

(** [try: body  except Exception: handler] with a handler that swallows
    the exception. *)
Definition try_except {S} (body : M S unit) (handler : M S unit)
  : M S unit := λ s,
  match body s with
  | (Ok a, s') => (Ok a, s')
  | (Err _, s') => handler s'
  end.

(** [try: body  finally: final]: the final block runs on every exit; an
    exception of the body is raised again after it, unless the final
    block raises one itself. *)
Definition try_finally {S A} (body : M S A) (final : M S unit)
  : M S A := λ s,
  match body s with
  | (r, s') =>
      match final s' with
      | (Ok _, s'') => (r, s'')
      | (Err e', s'') => (Err e', s'')
      end
  end.

(** [for x in xs: body x] *)
Fixpoint for_each {S A} (xs : list A) (body : A → M S unit) : M S unit :=
  match xs with
  | [] => mret tt
  | x :: xs' => body x ;; for_each xs' body
  end.

(** ** Videos, files and decode contexts *)

Section Model.

(** A decoded raster image; its pixels are only observed through the
    grayscale conversion. *)
Context {Frame : Type}.

(** What a video file holds: the frames a sequential read delivers until
    end of stream, and the frame count and frame rate its header
    reports (already truncated to integers, as [__init__] does). *)
Record Video := {
  v_frames : list Frame;
  v_frame_count : Z;
  v_fps : Z
}.

Inductive File :=
| ImageFile (f : Frame)
| VideoFile (v : Video).

(** The collaborators outside the repository: OpenCV's colour
    conversion (flattened, as integers), the transcoder, and
    [os.path.splitext(os.path.basename(_))[0]]. *)
Class External := {
  bgr2gray : Frame → list Z;
  ffmpeg_scale : Video → Z → option Video;
  splitext_stem : string → string
}.

(** [cv2.VideoCapture]: the stream, whether the context is still held,
    and the position of the next frame. *)
Record Cap := {
  cap_stream : list Frame;
  cap_opened : bool;
  cap_pos : Z
}.

End Model.

Arguments Video : clear implicits.
Arguments File : clear implicits.
Arguments External : clear implicits.
Arguments Cap : clear implicits.

(** A directory is the list of its path components; a file path is a
    directory and a base name ([os.path.join(dir, name)]). *)
Abbreviation Dir := (list string).
Abbreviation Path := (list string * string)%type.
Abbreviation FS Frame := (gmap (list string) (gmap string (File Frame))).

(** The calls of the logger, one constructor per call site. *)
Inductive LogMsg :=
| InfoReadingFrames
| InfoDetecting
| InfoDetected (n : nat)
| InfoCannotRead (frame_number : Z)
| InfoExtracted (n : nat)
| InfoStep1
| InfoStep2
| InfoStep3
| InfoDone
| ErrorFfmpeg
| ErrorFailed
| WarnRemoveFailed
| WarnRmtreeFailed
| InfoCleaned
| WarnCleanupError.

(** Observable actions, recorded in order. *)
Inductive Event :=
| EvLog (m : LogMsg)
| EvSeek (video : Path) (pos : Z)
| EvRead (video : Path) (pos : Z) (ok : bool)
| EvRelease (video : Path)
| EvMakedirs (d : Dir)
| EvImwrite (p : Path)
| EvFfmpeg (input output : Path) (ok : bool)
| EvSleep
| EvRemove (p : Path) (ok : bool)
| EvRmtree (d : Dir) (ok : bool).

Section State.

Context {Frame : Type}.

(** Everything outside the processor objects: the file system, the
    trace, and the failures the environment will inject into the next
    deletions ([true]: the call raises [OSError]-like and changes
    nothing; an exhausted list means no more failures). *)
Record World := {
  fs : FS Frame;
  trace : list Event;
  faults : list bool
}.

(** The fields of a [VideoProcessor] instance. *)
Record VideoProcessor := {
  video_path : Path;
  cap : Cap Frame;
  total_frames : Z;
  fps : Z
}.

(** The state a method of the class runs in: [self] and the world. *)
Record Ctx := {
  self : VideoProcessor;
  world : World
}.

Definition set_fs (f : FS Frame → FS Frame) (w : World) : World :=
  {| fs := f (fs w); trace := trace w; faults := faults w |}.

Definition add_event (e : Event) (w : World) : World :=
  {| fs := fs w; trace := trace w ++ [e]; faults := faults w |}.

Definition set_cap (f : Cap Frame → Cap Frame) (vp : VideoProcessor)
  : VideoProcessor :=
  {| video_path := video_path vp; cap := f (cap vp);
     total_frames := total_frames vp; fps := fps vp |}.

Definition set_self (f : VideoProcessor → VideoProcessor) (c : Ctx) : Ctx :=
  {| self := f (self c); world := world c |}.

Definition set_world (f : World → World) (c : Ctx) : Ctx :=
  {| self := self c; world := f (world c) |}.

(** Run a computation on the world inside a method. *)
Definition in_world {A} (m : M World A) : M Ctx A := λ c,
  match m (world c) with
  | (r, w') => (r, {| self := self c; world := w' |})
  end.

Definition emit (e : Event) : M World unit := modify (add_event e).
Definition log (m : LogMsg) : M Ctx unit := in_world (emit (EvLog m)).

(** *** File system *)

Definition path_exists_dir (d : Dir) : M World bool :=
  gets (λ w, bool_decide (is_Some (fs w !! d))).

Definition lookup_file (p : Path) (w : World) : option (File Frame) :=
  fs w !! p.1 ≫= λ entries, entries !! p.2.

Definition path_exists_file (p : Path) : M World bool :=
  gets (λ w, bool_decide (is_Some (lookup_file p w))).

(** [os.path.exists] on the path of a file: something of that name
    exists, a file or a directory. *)
Definition os_path_exists (p : Path) : M World bool :=
  gets (λ w, bool_decide (is_Some (lookup_file p w))
             || bool_decide (is_Some (fs w !! (p.1 ++ [p.2])))).

(** [os.makedirs]: the directory and every missing ancestor. *)
Fixpoint create_dirs (prefixes : list Dir) (m : FS Frame) : FS Frame :=
  match prefixes with
  | [] => m
  | d :: ds =>
      let m' := match m !! d with
                | Some _ => m
                | None => <[d := ∅]> m
                end in
      create_dirs ds m'
  end.

Definition ancestors_and_self (d : Dir) : list Dir :=
  (λ n, take n d) <$> seq 0 (S (length d)).

Definition makedirs (d : Dir) : M World unit :=
  modify (set_fs (create_dirs (ancestors_and_self d)));;
  emit (EvMakedirs d).

(** The guard [if not os.path.exists(d): os.makedirs(d)]. *)
Definition ensure_dir (d : Dir) : M World unit :=
  present ← path_exists_dir d;
  if (present : bool) then mret tt else makedirs d.

(** [os.listdir]: the names of the files and of the subdirectories. *)
Definition subdir_names (d : Dir) (m : FS Frame) : list string :=
  omap (λ d', match reverse d' with
              | n :: parent_rev =>
                  if bool_decide (reverse parent_rev = d)
                  then Some n else None
              | [] => None
              end) (elements (dom m)).

Definition listdir (d : Dir) : M World (list string) := λ w,
  match fs w !! d with
  | Some entries =>
      (Ok (elements (dom entries) ++ subdir_names d (fs w)), w)
  | None => (Err FileNotFoundError, w)
  end.

(** [cv2.imwrite]: writes (or overwrites) the file; in a directory that
    does not exist nothing is written and no exception is raised. *)
Definition write_file (p : Path) (f : File Frame) (m : FS Frame) : FS Frame :=
  match m !! p.1 with
  | Some entries => <[p.1 := <[p.2 := f]> entries]> m
  | None => m
  end.

Definition imwrite (p : Path) (frame : Frame) : M World unit :=
  modify (set_fs (write_file p (ImageFile frame)));;
  emit (EvImwrite p).

(** The next injected failure, if any. *)
Definition next_fault : M World bool := λ w,
  match faults w with
  | b :: rest =>
      (Ok b, {| fs := fs w; trace := trace w; faults := rest |})
  | [] => (Ok false, w)
  end.

Definition delete_file (p : Path) (m : FS Frame) : FS Frame :=
  match m !! p.1 with
  | Some entries => <[p.1 := delete p.2 entries]> m
  | None => m
  end.

(** [os.remove]: it deletes a file, and raises on a directory and on a
    name that does not exist. *)
Definition os_remove (p : Path) : M World unit :=
  failed ← next_fault;
  if (failed : bool) then emit (EvRemove p false);; raise OSError
  else
    present ← path_exists_file p;
    if (present : bool)
    then modify (set_fs (delete_file p));; emit (EvRemove p true)
    else
      is_dir ← path_exists_dir (p.1 ++ [p.2]);
      emit (EvRemove p false);;
      raise (if (is_dir : bool) then OSError else FileNotFoundError).

Definition is_prefix_of (d d' : Dir) : bool :=
  bool_decide (take (length d) d' = d).

(** [shutil.rmtree] *)
Definition rmtree (d : Dir) : M World unit :=
  failed ← next_fault;
  if (failed : bool) then emit (EvRmtree d false);; raise OSError
  else
    present ← path_exists_dir d;
    if (present : bool)
    then modify (set_fs (filter (λ kv, is_prefix_of d kv.1 = false)));;
         emit (EvRmtree d true)
    else emit (EvRmtree d false);; raise FileNotFoundError.

(** *** The decode context *)

Definition release_cap (c : Cap Frame) : Cap Frame :=
  {| cap_stream := cap_stream c; cap_opened := false; cap_pos := cap_pos c |}.

Definition seek_cap (pos : Z) (c : Cap Frame) : Cap Frame :=
  if cap_opened c
  then {| cap_stream := cap_stream c; cap_opened := true; cap_pos := pos |}
  else c.

Definition frame_at (c : Cap Frame) : option Frame :=
  if cap_opened c && (0 <=? cap_pos c)
  then cap_stream c !! Z.to_nat (cap_pos c)
  else None.

Definition advance_cap (c : Cap Frame) : Cap Frame :=
  {| cap_stream := cap_stream c; cap_opened := cap_opened c;
     cap_pos := cap_pos c + 1 |}.

(** [self.cap.set(cv2.CAP_PROP_POS_FRAMES, pos)] *)
Definition cap_set (pos : Z) : M Ctx unit := λ c,
  (Ok tt,
   {| self := set_cap (seek_cap pos) (self c);
      world := add_event (EvSeek (video_path (self c)) pos) (world c) |}).

(** [ret, frame = self.cap.read()]; [None] is [ret == False]. *)
Definition cap_read : M Ctx (option Frame) := λ c,
  let vp := self c in
  match frame_at (cap vp) with
  | Some f =>
      (Ok (Some f),
       {| self := set_cap advance_cap vp;
          world := add_event (EvRead (video_path vp) (cap_pos (cap vp)) true)
                             (world c) |})
  | None =>
      (Ok None,
       {| self := vp;
          world := add_event (EvRead (video_path vp) (cap_pos (cap vp)) false)
                             (world c) |})
  end.

(** [self.cap.release()] *)
Definition cap_release : M Ctx unit := λ c,
  (Ok tt,
   {| self := set_cap release_cap (self c);
      world := add_event (EvRelease (video_path (self c))) (world c) |}).

Definition cap_isOpened : M Ctx bool :=
  gets (λ c, cap_opened (cap (self c))).

End State.

Arguments World : clear implicits.
Arguments VideoProcessor : clear implicits.
Arguments Ctx : clear implicits.

(** ** File names of the archive *)

(** [f"{hours:02d}{minutes:02d}{seconds:02d}"] for a whole number of
    seconds. *)
Definition time_str (timestamp_seconds : Z) : string :=
  let hours := timestamp_seconds / 3600 in
  let minutes := (timestamp_seconds mod 3600) / 60 in
  let seconds := timestamp_seconds mod 60 in
  Py.format_d 2 hours +:+ Py.format_d 2 minutes +:+ Py.format_d 2 seconds.

(** [f"keyframe_{frame_idx:06d}_{time_str}.jpg"] *)
Definition keyframe_name (frame_idx : Z) (time : string) : string :=
  "keyframe_" +:+ Py.format_d 6 frame_idx +:+ "_" +:+ time +:+ ".jpg".

(** [re.compile(r'keyframe_(\d+)_\d+\.jpg$')] *)
Definition keyframe_pattern : list Re.item :=
  Re.literal "keyframe_" ++ [Re.Digits1 true] ++ Re.literal "_" ++
  [Re.Digits1 false] ++ Re.literal ".jpg" ++ [Re.EndAnchor].

(** One turn of the loop of [extract_numbers_from_folder]: the number
    appended for the file name [f], if the pattern is found in it. *)
Definition number_of_name (f : string) : option Z :=
  match Re.search keyframe_pattern f with
  | Some (group1 :: _) => Py.int_of_digits group1
  | _ => None
  end.

(** ** Numeric kernels (numpy, sklearn) *)

Definition sum_Z (l : list Z) : Z := foldr Z.add 0 l.
Definition sum_Q (l : list Q) : Q := foldr Qplus (0 # 1) l.

Definition Qlt_bool (x y : Q) : bool :=
  match Qcompare x y with Lt => true | _ => false end.

(** [np.mean(np.abs(curr.astype(int) - prev.astype(int)))] on two images
    of one shape (images of different sizes cannot be subtracted). *)
Definition mean_abs (curr prev : list Z) : Q :=
  sum_Z (zip_with (λ c p, Z.abs (c - p)) curr prev) # Pos.of_nat (length curr).

Definition mean_abs_diff (curr prev : list Z) : Result Q :=
  if bool_decide (length curr = length prev)
  then Ok (mean_abs curr prev)
  else Err (ValueError ShapeMismatch).

(** The sums of the columns of a matrix given by its rows. *)
Definition col_sums (rows : list (list Z)) : list Z :=
  match rows with
  | [] => []
  | r :: rows' => foldl (zip_with Z.add) r rows'
  end.

(** [KMeans(n_clusters=1, random_state=0).fit(X).cluster_centers_[0]]:
    with a single cluster the centre is the mean of the samples.  [X]
    must be a matrix with at least one row. *)
Definition kmeans1_center (X : list (list Z)) : Result (list Q) :=
  match X with
  | [] => Err (ValueError EmptyShot)
  | r :: _ =>
      if forallb (λ r', bool_decide (length r' = length r)) X
      then Ok ((λ s, s # Pos.of_nat (length X)) <$> col_sums X)
      else Err (ValueError ShapeMismatch)
  end.

(** [np.sum((row - center) ** 2)] *)
Definition sq_dist (center : list Q) (row : list Z) : Q :=
  sum_Q (zip_with (λ x c, (inject_Z x - c) * (inject_Z x - c))%Q row center).

(** [np.argmin]: the position of the first minimum. *)
Fixpoint argmin_from (best_i : Z) (best : Q) (i : Z) (l : list Q) : Z :=
  match l with
  | [] => best_i
  | d :: l' =>
      if Qlt_bool d best
      then argmin_from i d (i + 1) l'
      else argmin_from best_i best (i + 1) l'
  end.

Definition argmin (l : list Q) : Z :=
  match l with
  | [] => 0
  | d :: l' => argmin_from 0 d 1 l'
  end.

Fixpoint map_result {A B} (f : A → Result B) (l : list A) : Result (list B) :=
  match l with
  | [] => Ok []
  | x :: l' => y ← f x; ys ← map_result f l'; Ok (y :: ys)
  end.

(** ** The class [VideoProcessor] *)

Section VideoProcessor.

Context {Frame : Type} `{!External Frame}.

Local Abbreviation Method := (M (Ctx Frame)).

(** [VideoProcessor(video_path)] *)
Definition init (path : Path) : M (World Frame) (VideoProcessor Frame) :=
  present ← os_path_exists path;
  if (present : bool) then
    w ← get;
    match lookup_file path w with
    | Some (VideoFile v) =>
        mret {| video_path := path;
                cap := {| cap_stream := v_frames v; cap_opened := true;
                          cap_pos := 0 |};
                total_frames := v_frame_count v;
                fps := v_fps v |}
    | _ => raise RuntimeError
    end
  else raise FileNotFoundError.

(** [__del__] *)
Definition del : Method unit := cap_release.

(** The loop of [preprocess_video]; the stream is finite, so the loop
    is given one more turn than the stream has frames. *)
Fixpoint read_frames (fuel : nat) : Method (list Frame) :=
  match fuel with
  | O => mret []
  | S fuel' =>
      opened ← cap_isOpened;
      if (opened : bool) then
        r ← cap_read;
        match r with
        | None => mret []
        | Some frame => rest ← read_frames fuel'; mret (frame :: rest)
        end
      else mret []
  end.

(** [preprocess_video], consumed to the end. *)
Definition preprocess_video : Method (list Frame) :=
  cap_set 0;;
  c ← get;
  read_frames (S (length (cap_stream (cap (self c))))).

(** [cv2.cvtColor(frame, cv2.COLOR_BGR2GRAY)]; OpenCV rejects an empty
    image. *)
Definition cvtColor_gray (frame : Frame) : Result (list Z) :=
  match bgr2gray frame with
  | [] => Err Cv2Error
  | px => Ok px
  end.

(** The value of [diff] in turn [i] of [detect_shot_boundaries]. *)
Definition frame_diff (frames : list Frame) (i : Z) : Result Q :=
  prev ← of_option IndexError (Py.index frames (i - 1));
  prev_frame ← cvtColor_gray prev;
  curr ← of_option IndexError (Py.index frames i);
  curr_frame ← cvtColor_gray curr;
  mean_abs_diff curr_frame prev_frame.

Fixpoint detect_loop (frames : list Frame) (threshold : Z) (turns : list Z)
    (shot_boundaries : list Z) : Result (list Z) :=
  match turns with
  | [] => Ok shot_boundaries
  | i :: turns' =>
      diff ← frame_diff frames i;
      detect_loop frames threshold turns'
        (if Qlt_bool (inject_Z threshold) diff
         then shot_boundaries ++ [i]
         else shot_boundaries)
  end.

Definition detect_shot_boundaries (frames : list Frame) (threshold : Z)
  : Result (list Z) :=
  detect_loop frames threshold (Py.range 1 (Z.of_nat (length frames))) [].

(** The value of [center_idx] for one shot. *)
Definition center_index (shot_frames : list Frame) : Result Z :=
  frame_features ← map_result cvtColor_gray shot_frames;
  center ← kmeans1_center frame_features;
  Ok (argmin (sq_dist center <$> frame_features)).

Fixpoint extract_loop (frames : list Frame) (shot_boundaries : list Z)
    (turns : list Z) (keyframes : list Frame) (keyframe_indices : list Z)
  : Result (list Frame * list Z) :=
  match turns with
  | [] => Ok (keyframes, keyframe_indices)
  | i :: turns' =>
      start ← (if 0 <? i
               then of_option IndexError (Py.index shot_boundaries (i - 1))
               else Ok 0);
      stop ← of_option IndexError (Py.index shot_boundaries i);
      let shot_frames := Py.slice frames start stop in
      center_idx ← center_index shot_frames;
      keyframe ← of_option IndexError (Py.index shot_frames center_idx);
      extract_loop frames shot_boundaries turns'
        (keyframes ++ [keyframe]) (keyframe_indices ++ [start + center_idx])
  end.

Definition extract_keyframes (frames : list Frame) (shot_boundaries : list Z)
  : Result (list Frame * list Z) :=
  extract_loop frames shot_boundaries
    (Py.range 0 (Z.of_nat (length shot_boundaries))) [] [].

(** One turn of the loop of [save_keyframes].  [timestamp] is a float
    in the code; only its integral part reaches the file name. *)
Definition save_one (output_dir : Dir) (kf : Frame * Z) : Method unit :=
  let '(keyframe, frame_idx) := kf in
  rate ← gets (λ c, fps (self c));
  if rate =? 0 then raise ZeroDivisionError
  else
    let timestamp := frame_idx / rate in
    in_world (imwrite (output_dir, keyframe_name frame_idx (time_str timestamp))
                      keyframe).

Definition save_keyframes (keyframes : list Frame) (keyframe_indices : list Z)
    (output_dir : Dir) : Method unit :=
  in_world (ensure_dir output_dir);;
  for_each (zip keyframes keyframe_indices) (save_one output_dir).

Definition invalid_frame_number (total : Z) (fn : Z) : bool :=
  (total <=? fn) || (fn <? 0).

(** The loop of [extract_frames_by_numbers]; it returns the final
    [processed_seconds]. *)
Fixpoint extract_frames_loop (frame_numbers : list Z) (output_folder : Dir)
    (processed_seconds : gset Z) : Method (gset Z) :=
  match frame_numbers with
  | [] => mret processed_seconds
  | frame_number :: rest =>
      rate ← gets (λ c, fps (self c));
      if rate =? 0 then raise ZeroDivisionError
      else
        let timestamp_seconds := Z.quot frame_number rate in
        if bool_decide (timestamp_seconds ∈ processed_seconds)
        then extract_frames_loop rest output_folder processed_seconds
        else
          cap_set frame_number;;
          r ← cap_read;
          match r with
          | Some frame =>
              in_world (imwrite (output_folder,
                                 keyframe_name frame_number
                                   (time_str timestamp_seconds)) frame);;
              extract_frames_loop rest output_folder
                ({[timestamp_seconds]} ∪ processed_seconds)
          | None =>
              log (InfoCannotRead frame_number);;
              extract_frames_loop rest output_folder processed_seconds
          end
  end.

Definition extract_frames_by_numbers (frame_numbers : list Z)
    (output_folder : Dir) : Method unit :=
  match frame_numbers with
  | [] => raise (ValueError NoFrameNumbers)
  | _ =>
      total ← gets (λ c, total_frames (self c));
      if existsb (invalid_frame_number total) frame_numbers
      then raise InvalidIndex
      else
        in_world (ensure_dir output_folder);;
        processed_seconds ← extract_frames_loop frame_numbers output_folder ∅;
        log (InfoExtracted (size processed_seconds))
  end.

(** [extract_numbers_from_folder] (a static method) *)
Definition extract_numbers_from_folder (folder_path : Dir)
  : M (World Frame) (list Z) :=
  names ← listdir folder_path;
  let files := filter (λ f, Py.endswith f ".jpg" = true) names in
  let numbers := omap number_of_name files in
  mret (merge_sort Z.le numbers).

Definition process_video (output_dir : Dir) (skip_seconds : Q)
    (threshold : Z) : Method unit :=
  rate ← gets (λ c, fps (self c));
  let skip_frames := Py.int_of_Q (skip_seconds * inject_Z rate) in
  log InfoReadingFrames;;
  frames ← preprocess_video;
  let frames := Py.slice_from frames skip_frames in
  match frames with
  | [] => raise (ValueError NoFramesLeft)
  | _ =>
      log InfoDetecting;;
      shot_boundaries ← lift_result (detect_shot_boundaries frames threshold);
      log (InfoDetected (length shot_boundaries));;
      selected ← lift_result (extract_keyframes frames shot_boundaries);
      let adjusted_indices := (λ idx, idx + skip_frames) <$> selected.2 in
      save_keyframes selected.1 adjusted_indices output_dir
  end.

End VideoProcessor.

(** ** The two-pass pipeline *)

Section Pipeline.

Context {Frame : Type} `{!External Frame}.

(** The state of [process_video_pipeline]: [self], the world, and the
    two local variables the [finally] block inspects. *)
Record Locals := {
  p_self : VideoProcessor Frame;
  p_world : World Frame;
  mini_processor : option (VideoProcessor Frame);
  compressed_video : option Path
}.

Definition with_world (p : Locals) (w : World Frame) : Locals :=
  {| p_self := p_self p; p_world := w;
     mini_processor := mini_processor p;
     compressed_video := compressed_video p |}.

Definition on_world {A} (m : M (World Frame) A) : M Locals A := λ p,
  match m (p_world p) with
  | (r, w') => (r, with_world p w')
  end.

(** A method called on [self]. *)
Definition on_self {A} (m : M (Ctx Frame) A) : M Locals A := λ p,
  match m {| self := p_self p; world := p_world p |} with
  | (r, c') =>
      (r, {| p_self := self c'; p_world := world c';
             mini_processor := mini_processor p;
             compressed_video := compressed_video p |})
  end.

(** A method called on [mini_processor]; on [None] Python raises
    [AttributeError], which no call site can reach. *)
Definition on_mini {A} (m : M (Ctx Frame) A) : M Locals A := λ p,
  match mini_processor p with
  | Some mp =>
      match m {| self := mp; world := p_world p |} with
      | (r, c') =>
          (r, {| p_self := p_self p; p_world := world c';
                 mini_processor := Some (self c');
                 compressed_video := compressed_video p |})
      end
  | None => (Err AttributeError, p)
  end.

Definition set_mini_processor (mp : option (VideoProcessor Frame))
  : M Locals unit :=
  modify (λ p, {| p_self := p_self p; p_world := p_world p;
                  mini_processor := mp;
                  compressed_video := compressed_video p |}).

Definition set_compressed_video (cv : option Path) : M Locals unit :=
  modify (λ p, {| p_self := p_self p; p_world := p_world p;
                  mini_processor := mini_processor p;
                  compressed_video := cv |}).

Definition plog (m : LogMsg) : M Locals unit := on_world (emit (EvLog m)).

(** [subprocess.run(ffmpeg_cmd, check=True, ...)]: a non-zero exit
    status raises [CalledProcessError]; with [-y] the output file is
    overwritten. *)
Definition run_ffmpeg (input output : Path) (compressed_width : Z)
  : M (World Frame) unit :=
  w ← get;
  match lookup_file input w with
  | Some (VideoFile v) =>
      match ffmpeg_scale v compressed_width with
      | Some v' =>
          modify (set_fs (write_file output (VideoFile v')));;
          emit (EvFfmpeg input output true)
      | None => emit (EvFfmpeg input output false);; raise CalledProcessError
      end
  | _ => emit (EvFfmpeg input output false);; raise CalledProcessError
  end.

(** Steps 1 and 2 of the [try] block: compress, then detect and select on
    the compressed copy. *)
Definition low_res_pass (temp_dir : Dir) (skip_seconds : Q) (threshold : Z)
    (compressed_width : Z) : M Locals unit :=
  let compressed_dir := temp_dir ++ ["compressed"] in
  let mini_frames_dir := temp_dir ++ ["mini_frames"] in
  me ← gets p_self;
  let video_name := splitext_stem (video_path me).2 in
  let compressed := (compressed_dir, video_name +:+ "_compressed.mp4") in
  set_compressed_video (Some compressed);;
  plog InfoStep1;;
  try_except_reraise
    (on_world (run_ffmpeg (video_path me) compressed compressed_width))
    (plog ErrorFfmpeg);;
  plog InfoStep2;;
  mp ← on_world (init compressed);
  set_mini_processor (Some mp);;
  on_mini (process_video mini_frames_dir skip_seconds threshold).

(** Step 3 of the [try] block: recover the frame numbers and extract
    them from the original video. *)
Definition high_res_pass (temp_dir hd_frames_dir : Dir) : M Locals unit :=
  let mini_frames_dir := temp_dir ++ ["mini_frames"] in
  plog InfoStep3;;
  frame_numbers ← on_world (extract_numbers_from_folder mini_frames_dir);
  match frame_numbers with
  | [] => raise NoKeyframesFound
  | _ =>
      on_self (extract_frames_by_numbers frame_numbers hd_frames_dir);;
      plog InfoDone
  end.

(** The [try] block with its [except Exception: ...; raise]. *)
Definition pipeline_try (output_dir : Dir) (skip_seconds : Q)
    (threshold compressed_width : Z) : M Locals unit :=
  let temp_dir := output_dir ++ ["temp"] in
  try_except_reraise
    (low_res_pass temp_dir skip_seconds threshold compressed_width;;
     high_res_pass temp_dir output_dir)
    (plog ErrorFailed).

(** The retry loop around [shutil.rmtree]. *)
Fixpoint rmtree_retry (max_retries : Z) (turns : list Z) (temp_dir : Dir)
  : M (World Frame) unit :=
  match turns with
  | [] => mret tt
  | i :: turns' => λ w,
      match rmtree temp_dir w with
      | (Ok _, w') => (Ok tt, w')
      | (Err _, w') =>
          if i =? max_retries - 1
          then (emit (EvLog WarnRmtreeFailed);;
                rmtree_retry max_retries turns' temp_dir) w'
          else (emit EvSleep;;
                rmtree_retry max_retries turns' temp_dir) w'
      end
  end.

(** "First delete the compressed video file". *)
Definition remove_compressed : M Locals unit :=
  cv ← gets compressed_video;
  match cv with
  | Some p =>
      present ← on_world (os_path_exists p);
      if (present : bool)
      then try_except (on_world (os_remove p)) (plog WarnRemoveFailed)
      else mret tt
  | None => mret tt
  end.

(** "Then delete the temporary directory". *)
Definition remove_temp_dir (temp_dir : Dir) : M Locals unit :=
  present ← on_world (path_exists_dir temp_dir);
  if (present : bool)
  then on_world (rmtree_retry 3 (Py.range 0 3) temp_dir)
  else mret tt.

Definition remove_temp (temp_dir : Dir) : M Locals unit :=
  remove_compressed;;
  remove_temp_dir temp_dir;;
  plog InfoCleaned.

(** The [finally] block.  [del mini_processor] only drops the binding;
    whenever the finalizer of the object runs, it releases the context
    once more. *)
Definition pipeline_finally (output_dir : Dir) (keep_temp : bool)
  : M Locals unit :=
  let temp_dir := output_dir ++ ["temp"] in
  mp ← gets mini_processor;
  match mp with
  | Some _ => on_mini cap_release;; set_mini_processor None
  | None => mret tt
  end;;
  on_self cap_release;;
  on_world (emit EvSleep);;
  if keep_temp then mret tt
  else try_except (remove_temp temp_dir) (plog WarnCleanupError).

(** The statements before the [try] block. *)
Definition pipeline_setup (output_dir : Dir) : M Locals unit :=
  let temp_dir := output_dir ++ ["temp"] in
  on_world (makedirs output_dir;;
            makedirs temp_dir;;
            makedirs (temp_dir ++ ["compressed"]);;
            makedirs (temp_dir ++ ["mini_frames"]);;
            makedirs output_dir);;
  set_mini_processor None;;
  set_compressed_video None.

Definition run_pipeline (output_dir : Dir) (skip_seconds : Q)
    (threshold compressed_width : Z) (keep_temp : bool) : M Locals unit :=
  pipeline_setup output_dir;;
  try_finally
    (pipeline_try output_dir skip_seconds threshold compressed_width)
    (pipeline_finally output_dir keep_temp).

(** [process_video_pipeline], as a method of [self]. *)
Definition process_video_pipeline (output_dir : Dir) (skip_seconds : Q)
    (threshold compressed_width : Z) (keep_temp : bool)
  : M (Ctx Frame) unit := λ c,
  match run_pipeline output_dir skip_seconds threshold compressed_width
          keep_temp
          {| p_self := self c; p_world := world c;
             mini_processor := None; compressed_video := None |} with
  | (r, p') => (r, {| self := p_self p'; world := p_world p' |})
  end.

End Pipeline.

Arguments Locals : clear implicits.

(** ** Notions used to state the properties *)

(** Seeks and reads of a decode context. *)
Definition is_decode_event (e : Event) : bool :=
  match e with
  | EvSeek _ _ | EvRead _ _ _ => true
  | _ => false
  end.

(** A string of decimal digits. *)
Fixpoint only_digits (s : string) : bool :=
  match s with
  | EmptyString => true
  | String c s' => Py.is_digit c && only_digits s'
  end.

(** A string that does not begin with a digit. *)
Definition no_leading_digit (s : string) : Prop :=
  match s with
  | EmptyString => True
  | String c _ => Py.is_digit c = false
  end.

(** The name [save_keyframes] gives to the frame with index [idx] at
    frame rate [rate]. *)
Definition archive_name (rate idx : Z) : string :=
  keyframe_name idx (time_str (idx / rate)).

(** The first of [frame_numbers] whose whole-second timestamp
    [floor(fn / rate)] is [second]. *)
Fixpoint first_in_second (rate : Z) (frame_numbers : list Z) (second : Z)
  : option Z :=
  match frame_numbers with
  | [] => None
  | fn :: rest =>
      if decide (fn / rate = second) then Some fn
      else first_in_second rate rest second
  end.

(** The frame numbers a deduplicating pass archives when every decode
    succeeds and the seconds in [seen] are already taken. *)
Fixpoint archived_numbers (rate : Z) (frame_numbers : list Z) (seen : gset Z)
  : list Z :=
  match frame_numbers with
  | [] => []
  | fn :: rest =>
      if decide (fn / rate ∈ seen) then archived_numbers rate rest seen
      else fn :: archived_numbers rate rest ({[fn / rate]} ∪ seen)
  end.

(** What the [finally] block may do: release, wait, delete, log. *)
Definition is_cleanup_event (e : Event) : bool :=
  match e with
  | EvRelease _ | EvSleep | EvRemove _ _ | EvRmtree _ _ | EvLog _ => true
  | _ => false
  end.

(** The files written by [cv2.imwrite], in order. *)
Definition written_paths (t : list Event) : list Path :=
  omap (λ e, match e with EvImwrite p => Some p | _ => None end) t.

Section Notions.

Context {Frame : Type} `{!External Frame}.

(** The frames of one video: non-empty images of one size. *)
Definition same_shape (npix : nat) (frames : list Frame) : Prop :=
  (0 < npix)%nat ∧ Forall (λ f, length (bgr2gray f) = npix) frames.

(** The mean absolute difference between the grayscale conversions of
    frames [i - 1] and [i] exceeds the threshold. *)
Definition exceeds (frames : list Frame) (threshold : Z) (i : Z) : Prop :=
  ∃ prev curr,
    frames !! Z.to_nat (i - 1) = Some prev ∧
    frames !! Z.to_nat i = Some curr ∧
    (inject_Z threshold < mean_abs (bgr2gray curr) (bgr2gray prev))%Q.

(** The test of turn [i] of the detection loop. *)
Definition above (frames : list Frame) (threshold : Z) (i : Z) : bool :=
  match frame_diff frames i with
  | Ok diff => Qlt_bool (inject_Z threshold) diff
  | Err _ => false
  end.

(** The mean vector of the rows of a matrix with [npix] columns. *)
Definition column (j : nat) (rows : list (list Z)) : list Z :=
  (λ r, r !!! j) <$> rows.

Definition mean_vector (npix : nat) (rows : list (list Z)) : list Q :=
  (λ j, sum_Z (column j rows) # Pos.of_nat (length rows)) <$> seq 0 npix.

(** Row [c] is at minimal squared distance from [center], and is the
    first such row. *)
Definition first_nearest (center : list Q) (rows : list (list Z)) (c : Z)
  : Prop :=
  ∃ row_c,
    0 ≤ c ∧ rows !! Z.to_nat c = Some row_c ∧
    ∀ (j : nat) row, rows !! j = Some row →
      (sq_dist center row_c <= sq_dist center row)%Q ∧
      (Z.of_nat j < c → (sq_dist center row_c < sq_dist center row)%Q).


(** The bounds of shot [i] of a boundary list, as the selection loop
    reads them. *)
Definition shot_span (shot_boundaries : list Z) (i : nat) : option (Z * Z) :=
  stop ← shot_boundaries !! i;
  Some (match i with
        | O => 0
        | S i' => default 0 (shot_boundaries !! i')
        end, stop).

(** The pair appended for shot [i]: the frame of the shot that is first
    among those nearest to the mean vector of the shot, with its position
    in [frames]; in a shot of identical frames it is the first frame. *)
Definition selected (npix : nat) (frames : list Frame)
    (shot_boundaries : list Z) (i : nat) (keyframe : Frame) (idx : Z) : Prop :=
  ∃ start stop c,
    shot_span shot_boundaries i = Some (start, stop) ∧
    let shot := Py.slice frames start stop in
    idx = start + c ∧
    0 ≤ c < Z.of_nat (length shot) ∧
    shot !! Z.to_nat c = Some keyframe ∧
    first_nearest (mean_vector npix (bgr2gray <$> shot)) (bgr2gray <$> shot) c ∧
    ((∀ f g, f ∈ shot → g ∈ shot → bgr2gray f = bgr2gray g) → c = 0).

(** A pipeline step that leaves [self], the processor of the original
    video, as it found it. *)
Definition keeps_self {A} (m : M (Locals Frame) A) : Prop :=
  ∀ p r p', m p = (r, p') → p_self p' = p_self p.

(** The trace [t'] continues [t] with events that all satisfy [P]. *)
Definition extends_by (P : Event → bool) (t t' : list Event) : Prop :=
  ∃ evs, t' = t ++ evs ∧ Forall (λ e, P e = true) evs.

(** No file stands where [os.makedirs d] needs a directory, at [d] or
    at one of its ancestors. *)
Definition unobstructed (d : Dir) (m : FS Frame) : Prop :=
  ∀ (n : nat) (name : string),
    d !! n = Some name →
    m !! take n d ≫= (λ entries, entries !! name) = None.

(** Whether a seek to [fn] followed by a read delivers a frame. *)
Definition readable (cp : Cap Frame) (fn : Z) : bool :=
  cap_opened cp && bool_decide (is_Some (cap_stream cp !! Z.to_nat fn)).

(** A computation that leaves the component [proj] of its state as it
    found it, whether it returns or raises. *)
Definition preserves {S X A} (proj : S → X) (m : M S A) : Prop :=
  ∀ s r s', m s = (r, s') → proj s' = proj s.

(** The failures still to be injected, seen from a method and from the
    pipeline. *)
Definition ctx_faults (c : Ctx Frame) : list bool := faults (world c).
Definition locals_faults (p : Locals Frame) : list bool := faults (p_world p).

(** The character [x] does not occur in [s]. *)
Fixpoint lacks (x : ascii) (s : string) : bool :=
  match s with
  | EmptyString => true
  | String c s' => negb (Ascii.eqb c x) && lacks x s'
  end.

End Notions.

(** ** A concrete environment and concrete inputs

    Frames are given by their grayscale pixels, the transcoder keeps
    every frame and the header, and the stem of a file name ends at its
    last dot. *)

Module Example.

Fixpoint has_dot (s : string) : bool :=
  match s with
  | EmptyString => false
  | String c s' => Ascii.eqb c "."%char || has_dot s'
  end.

Fixpoint stem (s : string) : string :=
  match s with
  | EmptyString => EmptyString
  | String c s' =>
      if Ascii.eqb c "."%char && negb (has_dot s') then EmptyString
      else String c (stem s')
  end.

#[global] Instance gray_frames : External (list Z) := {|
  bgr2gray := λ px, px;
  ffmpeg_scale := λ v _, Some v;
  splitext_stem := stem
|}.

Definition dark : list Z := [10; 10; 10; 10].
Definition dim : list Z := [12; 10; 11; 10].
Definition bright : list Z := [200; 210; 220; 230].

(** Three frames without a cut, at 30 frames per second. *)
Definition still_video : Video (list Z) :=
  {| v_frames := [dark; dim; dark]; v_frame_count := 3; v_fps := 30 |}.

(** Six frames with one cut at frame 3, at 2 frames per second. *)
Definition cut_video : Video (list Z) :=
  {| v_frames := [dark; dim; dark; bright; bright; bright];
     v_frame_count := 6; v_fps := 2 |}.

Definition demo_path : Path := (["videos"], "demo.mp4").

Definition world_with (v : Video (list Z)) : World (list Z) :=
  {| fs := {[ ["videos"] := {[ "demo.mp4" := VideoFile v ]} ]};
     trace := [];
     faults := [] |}.

Definition opened (v : Video (list Z)) : VideoProcessor (list Z) :=
  {| video_path := demo_path;
     cap := {| cap_stream := v_frames v; cap_opened := true; cap_pos := 0 |};
     total_frames := v_frame_count v;
     fps := v_fps v |}.

Definition ctx_with (v : Video (list Z)) : Ctx (list Z) :=
  {| self := opened v; world := world_with v |}.

Definition released_ctx (v : Video (list Z)) : Ctx (list Z) :=
  {| self := set_cap release_cap (opened v); world := world_with v |}.

(** A file whose header announces six frames at 2 frames per second but
    whose stream holds three: frames 3, 4 and 5 cannot be decoded. *)
Definition truncated_ctx : Ctx (list Z) :=
  {| self := {| video_path := demo_path;
                cap := {| cap_stream := [dark; dim; bright];
                          cap_opened := true; cap_pos := 0 |};
                total_frames := 6;
                fps := 2 |};
     world := world_with cut_video |}.


(** A processor whose file has been removed since it was opened. *)
Definition orphan_ctx : Ctx (list Z) :=
  {| self := opened cut_video;
     world := {| fs := ∅; trace := []; faults := [] |} |}.

End Example.

(** * Properties *)

(** ** The monad and the primitive operations *)

Ltac unfold_monad :=
  unfold log, emit;
  unfold mbind, mret, M_bind, M_ret, Result_bind, Result_ret, raise, get,
    gets, modify, lift_result, in_world.

Tactic Notation "unfold_monad" "in" hyp(H) :=
  unfold log, emit in H;
  unfold mbind, mret, M_bind, M_ret, Result_bind, Result_ret, raise, get,
    gets, modify, lift_result, in_world in H.

Section Properties.

Context {Frame : Type} `{!External Frame}.

Implicit Types (c : Ctx Frame) (w : World Frame) (frames : list Frame).

Lemma Qlt_bool_true (x y : Q) : Qlt_bool x y = true ↔ (x < y)%Q.
Proof.
  unfold Qlt_bool. rewrite Qlt_alt.
  destruct (x ?= y)%Q; split; congruence.
Qed.

Lemma Qlt_bool_false (x y : Q) : Qlt_bool x y = false ↔ (y <= x)%Q.
Proof.
  rewrite <- not_true_iff_false, Qlt_bool_true. split.
  - apply Qnot_lt_le.
  - apply Qle_not_lt.
Qed.

(** Reading never raises and touches neither the files nor anything but
    the decode position. *)
Lemma read_frames_effects (fuel : nat) c :
  ∃ frames c' evs,
    read_frames fuel c = (Ok frames, c') ∧
    fs (world c') = fs (world c) ∧
    trace (world c') = trace (world c) ++ evs ∧
    Forall (λ e, is_decode_event e = true) evs.
Proof.
  revert c. induction fuel as [|fuel IH]; intros c.
  - exists [], c, []. cbn. by rewrite app_nil_r.
  - cbn [read_frames]. unfold_monad. unfold cap_isOpened, gets.
    destruct (cap_opened (cap (self c))) eqn:Hop.
    + unfold cap_read. destruct (frame_at (cap (self c))) as [f|] eqn:Hf.
      * match goal with |- context [read_frames fuel ?c1] =>
          destruct (IH c1) as (fr & c' & evs & -> & Hfs & Htr & Hev) end.
        eexists _, c', (_ :: evs). split; [reflexivity|].
        split; [by rewrite Hfs|]. split.
        -- rewrite Htr. cbn. by rewrite <- app_assoc.
        -- by constructor.
      * eexists [], _, [_]. split; [reflexivity|]. cbn.
        split; [done|]. split; [done|]. by repeat constructor.
    + exists [], c, []. by rewrite app_nil_r.
Qed.

Lemma preprocess_video_effects c :
  ∃ frames c' evs,
    preprocess_video c = (Ok frames, c') ∧
    fs (world c') = fs (world c) ∧
    trace (world c') = trace (world c) ++ evs ∧
    Forall (λ e, is_decode_event e = true) evs.
Proof.
  unfold preprocess_video. unfold_monad. unfold cap_set.
  match goal with |- context [read_frames ?n ?c1] =>
    destruct (read_frames_effects n c1)
      as (fr & c' & evs & -> & Hfs & Htr & Hev) end.
  exists fr, c', (EvSeek (video_path (self c)) 0 :: evs).
  split; [done|]. split; [by rewrite Hfs|]. split.
  - rewrite Htr. cbn. by rewrite <- app_assoc.
  - by constructor.
Qed.

Lemma seek_cap_closed (pos : Z) (cp : Cap Frame) :
  cap_opened cp = false → seek_cap pos cp = cp.
Proof. intros Hcl. unfold seek_cap. by rewrite Hcl. Qed.

Lemma cap_set_closed (pos : Z) c :
  cap_opened (cap (self c)) = false →
  cap_set pos c =
    (Ok tt, set_world (add_event (EvSeek (video_path (self c)) pos)) c).
Proof.
  intros Hcl. destruct c as [[vp cp tf r] w]. cbn in *.
  unfold cap_set, set_cap, set_world. cbn. by rewrite seek_cap_closed.
Qed.



Lemma read_frames_closed (fuel : nat) c :
  cap_opened (cap (self c)) = false → read_frames fuel c = (Ok [], c).
Proof.
  intros Hcl. destruct fuel; [done|]. cbn [read_frames].
  unfold_monad. unfold cap_isOpened, gets. by rewrite Hcl.
Qed.

(** A released context delivers nothing, silently. *)
Lemma preprocess_video_released c :
  cap_opened (cap (self c)) = false →
  preprocess_video c =
    (Ok [], set_world (add_event (EvSeek (video_path (self c)) 0)) c).
Proof.
  intros Hcl. unfold preprocess_video. unfold_monad.
  rewrite cap_set_closed by done. by rewrite read_frames_closed.
Qed.

(** On an open context at position [pos], the loop delivers the rest of
    the stream when it is given enough turns. *)
Lemma read_frames_opened (fuel : nat) c :
  cap_opened (cap (self c)) = true →
  0 ≤ cap_pos (cap (self c)) →
  (length (cap_stream (cap (self c))) - Z.to_nat (cap_pos (cap (self c)))
     < fuel)%nat →
  ∃ c', read_frames fuel c =
          (Ok (drop (Z.to_nat (cap_pos (cap (self c))))
                    (cap_stream (cap (self c)))), c') ∧
        cap_opened (cap (self c')) = true ∧
        cap_stream (cap (self c')) = cap_stream (cap (self c)) ∧
        fps (self c') = fps (self c) ∧
        total_frames (self c') = total_frames (self c) ∧
        video_path (self c') = video_path (self c).
Proof.
  revert c. induction fuel as [|fuel IH]; intros c Hop Hpos Hfuel; [lia|].
  cbn [read_frames]. unfold_monad. unfold cap_isOpened, gets. rewrite Hop.
  unfold cap_read, frame_at. rewrite Hop.
  replace (0 <=? cap_pos (cap (self c))) with true by lia. cbn [andb].
  destruct (cap_stream (cap (self c)) !! Z.to_nat (cap_pos (cap (self c))))
    as [f|] eqn:Hf.
  - match goal with |- context [read_frames fuel ?c1] =>
      destruct (IH c1) as (c' & Hr & Hop' & Hst & Hfps & Htot & Hvp) end.
    + done.
    + cbn. lia.
    + cbn. apply lookup_lt_Some in Hf. lia.
    + rewrite Hr. cbn in *. exists c'. split; [|done].
      replace (Z.to_nat (cap_pos (cap (self c)) + 1))
        with (S (Z.to_nat (cap_pos (cap (self c))))) by lia.
      by erewrite (drop_S _ _ _ Hf).
  - apply lookup_ge_None in Hf. rewrite drop_ge by done.
    eexists. split; [reflexivity|done].
Qed.


(** ** Validation of frame numbers *)

Lemma existsb_invalid_frame_number (total : Z) (fns : list Z) :
  existsb (invalid_frame_number total) fns = true ↔
  ∃ fn, fn ∈ fns ∧ ¬ (0 ≤ fn < total).
Proof.
  rewrite existsb_exists. unfold invalid_frame_number.
  split; intros (fn & Hin & Hinv); exists fn;
    (split; [by apply list_elem_of_In|lia]).
Qed.

(** C3: a frame-number list holding an index outside
    [0, total_frames) makes [extract_frames_by_numbers] raise
    [InvalidIndex] in the very state it was called in, so before any
    seek, read, directory creation or file write; and a call that
    returns normally was given only indices inside the range. *)
Theorem extract_frames_by_numbers_rejects_invalid c (fns : list Z)
    (dir : Dir) :
  ((∃ fn, fn ∈ fns ∧ ¬ (0 ≤ fn < total_frames (self c))) →
   extract_frames_by_numbers fns dir c = (Err InvalidIndex, c)) ∧
  (∀ c', extract_frames_by_numbers fns dir c = (Ok tt, c') →
         ∀ fn, fn ∈ fns → 0 ≤ fn < total_frames (self c)).
Proof.
  split.
  - intros Hex.
    pose proof (proj2 (existsb_invalid_frame_number _ _) Hex) as Hb.
    destruct fns as [|fn0 fns].
    { destruct Hex as (? & Hin & _). by apply elem_of_nil in Hin. }
    unfold extract_frames_by_numbers. unfold_monad. by rewrite Hb.
  - intros c' Hok fn Hin.
    destruct (decide (0 ≤ fn < total_frames (self c))) as [|Hbad]; [done|].
    assert (existsb (invalid_frame_number (total_frames (self c))) fns = true)
      as Hb by (apply existsb_invalid_frame_number; eauto).
    destruct fns as [|fn0 fns]; [by apply elem_of_nil in Hin|].
    unfold extract_frames_by_numbers in Hok. unfold_monad in Hok.
    rewrite Hb in Hok. discriminate.
Qed.

(** ** Skipping the whole video *)

Lemma slice_from_beyond {A} (l : list A) (start : Z) :
  Z.of_nat (length l) ≤ start → Py.slice_from l start = [].
Proof.
  intros Hle. unfold Py.slice_from, Py.clamp_index.
  replace (start <? 0) with false by lia.
  apply drop_ge. lia.
Qed.

(** C10: when [int(skip_seconds * fps)] is at least the number of
    frames read, [process_video] raises right after the read loop: the
    state it raises in is the one the read loop left, in which the
    files are untouched and the trace has grown only by the first log
    line and by seeks and reads; detection, selection and saving have
    not started. *)
Theorem process_video_skip_beyond_end c (output_dir : Dir)
    (skip_seconds : Q) (threshold : Z) frames (c1 : Ctx Frame) :
  preprocess_video (log InfoReadingFrames c).2 = (Ok frames, c1) →
  Z.of_nat (length frames)
    ≤ Py.int_of_Q (skip_seconds * inject_Z (fps (self c))) →
  process_video output_dir skip_seconds threshold c
    = (Err (ValueError NoFramesLeft), c1) ∧
  fs (world c1) = fs (world c) ∧
  ∃ evs, trace (world c1)
           = trace (world c) ++ EvLog InfoReadingFrames :: evs ∧
         Forall (λ e, is_decode_event e = true) evs.
Proof.
  intros Hread Hskip. split.
  - unfold process_video. unfold_monad. unfold_monad in Hread.
    cbn in Hread |- *.
    rewrite Hread. by rewrite slice_from_beyond.
  - destruct (preprocess_video_effects (log InfoReadingFrames c).2)
      as (fr & c' & evs & Hpre & Hfs & Htr & Hev).
    rewrite Hread in Hpre. injection Hpre as <- <-.
    split; [done|]. exists evs. split; [|done].
    rewrite Htr. cbn. by rewrite <- app_assoc.
Qed.

(** ** Releasing the decode context *)

Lemma written_paths_snoc (t : list Event) (e : Event) :
  written_paths (t ++ [e]) =
    written_paths t ++ match e with EvImwrite p => [p] | _ => [] end.
Proof.
  unfold written_paths. rewrite omap_app. f_equal. by destruct e.
Qed.


Lemma forallb_valid_frame_numbers (total : Z) (fns : list Z) :
  (∀ fn, fn ∈ fns → 0 ≤ fn < total) →
  existsb (invalid_frame_number total) fns = false.
Proof.
  intros Hall. apply not_true_iff_false.
  rewrite existsb_invalid_frame_number. intros (fn & Hin & Hbad).
  by apply Hbad, Hall.
Qed.

Lemma ensure_dir_run (d : Dir) w :
  ∃ w', ensure_dir d w = (Ok tt, w') ∧
        written_paths (trace w') = written_paths (trace w) ∧
        faults w' = faults w ∧
        (is_Some (fs w !! d) → w' = w) ∧
        (fs w !! d = None →
         fs w' = create_dirs (ancestors_and_self d) (fs w)).
Proof.
  unfold ensure_dir, path_exists_dir, makedirs. unfold_monad.
  case_bool_decide as Hd.
  - exists w. repeat split; try done. intros Hnone.
    rewrite Hnone in Hd. by destruct Hd.
  - eexists. split; [reflexivity|]. cbn.
    rewrite written_paths_snoc, app_nil_r. done.
Qed.

(** What is left of [extract_frames_by_numbers] once the list has
    passed the two checks. *)
Lemma extract_frames_by_numbers_valid (fns : list Z) (dir : Dir) c :
  fns ≠ [] →
  (∀ fn, fn ∈ fns → 0 ≤ fn < total_frames (self c)) →
  extract_frames_by_numbers fns dir c =
    (in_world (ensure_dir dir);;
     processed_seconds ← extract_frames_loop fns dir ∅;
     log (InfoExtracted (size processed_seconds))) c.
Proof.
  intros Hne Hvalid. unfold extract_frames_by_numbers.
  destruct fns as [|fn0 fns]; [done|].
  unfold mbind at 1. unfold M_bind at 1. unfold gets.
  by rewrite forallb_valid_frame_numbers.
Qed.


(** ** Shot boundary detection *)

Lemma index_nonneg {A} (l : list A) (i : Z) :
  0 ≤ i → Py.index l i = l !! Z.to_nat i.
Proof. intros. unfold Py.index. by replace (i <? 0) with false by lia. Qed.

Lemma cvtColor_gray_same_shape (npix : nat) (f : Frame) :
  (0 < npix)%nat → length (bgr2gray f) = npix →
  cvtColor_gray f = Ok (bgr2gray f).
Proof.
  intros Hpos Hlen. unfold cvtColor_gray.
  destruct (bgr2gray f); [cbn in Hlen; lia|done].
Qed.

Lemma frame_diff_same_shape (npix : nat) frames (i : Z) :
  same_shape npix frames → 1 ≤ i < Z.of_nat (length frames) →
  ∃ prev curr,
    frames !! Z.to_nat (i - 1) = Some prev ∧
    frames !! Z.to_nat i = Some curr ∧
    frame_diff frames i = Ok (mean_abs (bgr2gray curr) (bgr2gray prev)).
Proof.
  intros [Hpos Hall] Hi. rewrite Forall_forall in Hall.
  destruct (lookup_lt_is_Some_2 frames (Z.to_nat (i - 1))) as [prev Hp];
    [lia|].
  destruct (lookup_lt_is_Some_2 frames (Z.to_nat i)) as [curr Hc]; [lia|].
  exists prev, curr. split; [done|]. split; [done|].
  unfold frame_diff. rewrite !index_nonneg by lia. rewrite Hp, Hc. cbn.
  assert (length (bgr2gray prev) = npix) as Hlp
    by (by apply Hall, list_elem_of_lookup_2 with (Z.to_nat (i - 1))).
  assert (length (bgr2gray curr) = npix) as Hlc
    by (by apply Hall, list_elem_of_lookup_2 with (Z.to_nat i)).
  rewrite !(cvtColor_gray_same_shape npix) by done. cbn.
  unfold mean_abs_diff. rewrite bool_decide_true by congruence. done.
Qed.

Lemma above_exceeds (npix : nat) frames (threshold i : Z) :
  same_shape npix frames → 1 ≤ i < Z.of_nat (length frames) →
  above frames threshold i = true ↔ exceeds frames threshold i.
Proof.
  intros Hshape Hi.
  destruct (frame_diff_same_shape npix frames i Hshape Hi)
    as (prev & curr & Hp & Hc & Hd).
  unfold above, exceeds. rewrite Hd, Qlt_bool_true. split.
  - intros Hlt. by exists prev, curr.
  - intros (prev' & curr' & Hp' & Hc' & Hlt). congruence.
Qed.

Lemma detect_loop_filter frames (threshold : Z) (turns acc : list Z) :
  Forall (λ i, is_Ok (frame_diff frames i) = true) turns →
  detect_loop frames threshold turns acc
    = Ok (acc ++ filter (λ i, above frames threshold i = true) turns).
Proof.
  revert acc. induction turns as [|i turns IH]; intros acc Hok.
  - cbn. by rewrite app_nil_r.
  - inversion Hok as [|? ? Hi Hrest]; subst. cbn [detect_loop].
    destruct (frame_diff frames i) as [d|] eqn:Hd; [|done].
    unfold mbind, Result_bind.
    assert (above frames threshold i = Qlt_bool (inject_Z threshold) d)
      as Habove by (unfold above; by rewrite Hd).
    rewrite IH by done. rewrite filter_cons.
    destruct (decide (above frames threshold i = true)) as [Ha|Ha];
      rewrite Habove in Ha.
    + rewrite Ha. by rewrite <- app_assoc.
    + by apply not_true_is_false in Ha as ->.
Qed.

Lemma detect_shot_boundaries_filter (npix : nat) frames (threshold : Z) :
  same_shape npix frames →
  detect_shot_boundaries frames threshold
    = Ok (filter (λ i, above frames threshold i = true)
            (seqZ 1 (Z.of_nat (length frames) - 1))).
Proof.
  intros Hshape. unfold detect_shot_boundaries, Py.range.
  rewrite detect_loop_filter; [done|].
  apply Forall_seqZ. intros i Hi.
  destruct (frame_diff_same_shape npix frames i Hshape) as (? & ? & _ & _ & ->);
    [lia|done].
Qed.

Lemma StronglySorted_seqZ (m n : Z) : StronglySorted Z.lt (seqZ m n).
Proof.
  destruct (decide (n ≤ 0)) as [|Hn]; [rewrite seqZ_nil by done; constructor|].
  rewrite <- (Z2Nat.id n) by lia. generalize (Z.to_nat n) as k. clear.
  intros k. revert m. induction k as [|k IH]; intros m.
  - rewrite seqZ_nil by done. constructor.
  - rewrite seqZ_cons by lia. constructor.
    + replace (Z.pred (Z.of_nat (S k))) with (Z.of_nat k) by lia. apply IH.
    + apply Forall_seqZ. lia.
Qed.

Lemma StronglySorted_filter {A} (R : relation A) (P : A → Prop)
    `{!∀ x, Decision (P x)} (l : list A) :
  StronglySorted R l → StronglySorted R (filter P l).
Proof.
  induction 1 as [|x l Hs IH Hall]; [constructor|].
  rewrite filter_cons. destruct (decide (P x)); [|done].
  constructor; [done|].
  apply Forall_forall. intros y Hy.
  apply list_elem_of_filter in Hy as [_ Hy].
  by eapply Forall_forall in Hall.
Qed.

Lemma NoDup_singleton_eq {A} (l : list A) (k : A) :
  NoDup l → (∀ x, x ∈ l ↔ x = k) → l = [k].
Proof.
  intros Hnd Hmem. destruct l as [|x l].
  - exfalso. by eapply elem_of_nil, Hmem.
  - assert (x = k) as -> by (apply Hmem; left).
    destruct l as [|y l]; [done|].
    assert (y = k) as -> by (apply Hmem; right; left).
    apply NoDup_cons in Hnd as [Hnotin _]. exfalso. apply Hnotin. left.
Qed.

(** C5: on the frames of a video, [detect_shot_boundaries] returns a
    list that holds [i] exactly when [1 ≤ i < N] and the mean absolute
    difference between the grayscale conversions of frames [i - 1]
    and [i] exceeds the threshold; the list is strictly increasing;
    and when [k] is the only position whose difference exceeds the
    threshold, the list is [[k]]. *)
Theorem detect_shot_boundaries_spec (npix : nat) frames (threshold : Z) :
  same_shape npix frames →
  ∃ shot_boundaries,
    detect_shot_boundaries frames threshold = Ok shot_boundaries ∧
    (∀ i, i ∈ shot_boundaries ↔
          1 ≤ i < Z.of_nat (length frames) ∧ exceeds frames threshold i) ∧
    StronglySorted Z.lt shot_boundaries ∧
    (∀ k, 1 ≤ k < Z.of_nat (length frames) →
          (∀ i, 1 ≤ i < Z.of_nat (length frames) →
                (exceeds frames threshold i ↔ i = k)) →
          shot_boundaries = [k]).
Proof.
  intros Hshape. eexists. split; [by eapply detect_shot_boundaries_filter|].
  set (N := Z.of_nat (length frames)).
  assert (∀ i, i ∈ filter (λ i, above frames threshold i = true)
                      (seqZ 1 (N - 1)) ↔
               1 ≤ i < N ∧ exceeds frames threshold i) as Hmem.
  { intros i. rewrite list_elem_of_filter, elem_of_seqZ. split.
    - intros [Ha Hi]. split; [lia|].
      apply (above_exceeds npix); [done|unfold N in *; lia|done].
    - intros [Hi He]. split; [|lia].
      apply (above_exceeds npix); [done|unfold N in *; lia|done]. }
  split; [done|]. split.
  - apply StronglySorted_filter, StronglySorted_seqZ.
  - intros k Hk Honly. apply NoDup_singleton_eq.
    + apply NoDup_filter, NoDup_seqZ.
    + intros i. rewrite Hmem. split.
      * intros [Hi He]. by apply Honly.
      * intros ->. split; [done|]. by apply Honly.
Qed.

(** ** Selection without boundaries *)

Lemma extract_keyframes_no_boundaries frames :
  extract_keyframes frames [] = Ok ([], []).
Proof. reflexivity. Qed.

(** C1 (what the code does): on a non-empty sequence in which no
    difference exceeds the threshold, [detect_shot_boundaries] returns
    the empty list, and [extract_keyframes] on that list returns no
    pair at all: its loop runs once per boundary, so the shot after the
    last boundary (here the whole sequence) is never visited. *)
Theorem uniform_sequence_yields_no_keyframe (npix : nat) frames
    (threshold : Z) :
  same_shape npix frames →
  frames ≠ [] →
  (∀ i, 1 ≤ i < Z.of_nat (length frames) → ¬ exceeds frames threshold i) →
  detect_shot_boundaries frames threshold = Ok [] ∧
  extract_keyframes frames [] = Ok ([], []).
Proof.
  intros Hshape _ Hnone. split; [|done].
  rewrite (detect_shot_boundaries_filter npix) by done. f_equal.
  apply elem_of_nil_inv. intros i Hi.
  apply list_elem_of_filter in Hi as [Ha Hi]. apply elem_of_seqZ in Hi.
  apply (Hnone i); [lia|]. apply (above_exceeds npix); [done|lia|done].
Qed.

(** ** The representative of a shot *)






Lemma argmin_from_spec (l : list Q) (best_i : Z) (best : Q) (i : Z) :
  (argmin_from best_i best i l = best_i ∧ Forall (λ d, (best <= d)%Q) l) ∨
  (∃ (k : nat) d,
     argmin_from best_i best i l = i + Z.of_nat k ∧
     l !! k = Some d ∧ (d < best)%Q ∧
     ∀ (j : nat) d', l !! j = Some d' →
       (d <= d')%Q ∧ ((j < k)%nat → (d < d')%Q)).
Proof.
  revert best_i best i. induction l as [|d l IH]; intros best_i best i.
  - left. by split.
  - cbn [argmin_from]. destruct (Qlt_bool d best) eqn:Hlt.
    + apply Qlt_bool_true in Hlt. right.
      destruct (IH i d (i + 1)) as [[Hc Hall]|(k & d2 & Hc & Hk & Hd2 & Hmin)].
      * exists 0%nat, d. rewrite Hc. split; [lia|]. split; [done|].
        split; [done|]. intros j d' Hj. split; [|lia].
        destruct j as [|j]; cbn in Hj.
        -- injection Hj as <-. apply Qle_refl.
        -- rewrite Forall_forall in Hall. apply Hall.
           by eapply list_elem_of_lookup_2.
      * exists (S k), d2. rewrite Hc. split; [lia|]. split; [done|].
        split; [by eapply Qlt_trans|]. intros j d' Hj.
        destruct j as [|j]; cbn in Hj.
        -- injection Hj as <-. split; [by apply Qlt_le_weak|done].
        -- destruct (Hmin j d' Hj) as [Hle Hstrict].
           split; [done|]. intros ?. apply Hstrict. lia.
    + apply Qlt_bool_false in Hlt.
      destruct (IH best_i best (i + 1))
        as [[Hc Hall]|(k & d2 & Hc & Hk & Hd2 & Hmin)].
      * left. split; [done|]. by constructor.
      * right. exists (S k), d2. rewrite Hc. split; [lia|]. split; [done|].
        split; [done|]. intros j d' Hj.
        destruct j as [|j]; cbn in Hj.
        -- injection Hj as <-.
           split; [apply Qlt_le_weak|intros _]; by eapply Qlt_le_trans.
        -- destruct (Hmin j d' Hj) as [Hle Hstrict].
           split; [done|]. intros ?. apply Hstrict. lia.
Qed.

(** [np.argmin] returns the first position of a minimum. *)
Lemma argmin_spec (l : list Q) :
  l ≠ [] →
  ∃ d, 0 ≤ argmin l < Z.of_nat (length l) ∧
       l !! Z.to_nat (argmin l) = Some d ∧
       ∀ (j : nat) d', l !! j = Some d' →
         (d <= d')%Q ∧ (Z.of_nat j < argmin l → (d < d')%Q).
Proof.
  intros Hne. destruct l as [|d0 l]; [done|]. unfold argmin.
  destruct (argmin_from_spec l 0 d0 1)
    as [[-> Hall]|(k & d & -> & Hk & Hd & Hmin)].
  - exists d0. split; [cbn; lia|]. split; [done|]. intros j d' Hj.
    split; [|lia]. destruct j as [|j]; cbn in Hj.
    + injection Hj as <-. apply Qle_refl.
    + rewrite Forall_forall in Hall. apply Hall.
      by eapply list_elem_of_lookup_2.
  - exists d. apply lookup_lt_Some in Hk as Hlen. split; [cbn; lia|].
    replace (Z.to_nat (1 + Z.of_nat k)) with (S k) by lia. split; [done|].
    intros j d' Hj. destruct j as [|j]; cbn in Hj.
    + injection Hj as <-. split; [by apply Qlt_le_weak|done].
    + destruct (Hmin j d' Hj) as [Hle Hstrict].
      split; [done|]. intros ?. apply Hstrict. lia.
Qed.









(** ** Saving keyframes *)

Lemma written_paths_app (t1 t2 : list Event) :
  written_paths (t1 ++ t2) = written_paths t1 ++ written_paths t2.
Proof. apply omap_app. Qed.


Lemma written_paths_imwrite (paths : list Path) :
  written_paths (EvImwrite <$> paths) = paths.
Proof. induction paths as [|p paths IH]; [done|]. cbn. by f_equal. Qed.

(** The loop of [save_keyframes] writes one file per pair, in order. *)
Lemma for_each_save_one (output_dir : Dir) (pairs : list (Frame * Z)) c :
  fps (self c) ≠ 0 →
  ∃ c', for_each pairs (save_one output_dir) c = (Ok tt, c') ∧
        self c' = self c ∧
        faults (world c') = faults (world c) ∧
        trace (world c')
          = trace (world c)
            ++ ((λ p, EvImwrite (output_dir,
                                 archive_name (fps (self c)) p.2)) <$> pairs) ∧
        fs (world c')
          = foldl (λ m p, write_file (output_dir,
                                      archive_name (fps (self c)) p.2)
                                     (ImageFile p.1) m)
                  (fs (world c)) pairs.
Proof.
  intros Hfps. revert c Hfps.
  induction pairs as [|[kf idx] pairs IH]; intros c Hfps.
  - exists c. cbn. by rewrite app_nil_r.
  - cbn [for_each]. unfold mbind at 1. unfold M_bind at 1.
    unfold save_one at 1. unfold_monad.
    replace (fps (self c) =? 0) with false by lia.
    unfold imwrite. unfold_monad. cbn.
    match goal with |- context [for_each pairs _ ?c1] =>
      destruct (IH c1) as (c' & -> & Hself & Hfaults & Htr & Hfs) end;
      [done|].
    exists c'. split; [done|]. split; [done|]. split; [done|].
    cbn in Htr, Hfs. split.
    + rewrite Htr. by rewrite <- app_assoc.
    + by rewrite Hfs.
Qed.

Lemma save_keyframes_run (keyframes : list Frame) (indices : list Z)
    (output_dir : Dir) c :
  fps (self c) ≠ 0 →
  ∃ w0 c',
    ensure_dir output_dir (world c) = (Ok tt, w0) ∧
    save_keyframes keyframes indices output_dir c = (Ok tt, c') ∧
    self c' = self c ∧
    written_paths (trace (world c'))
      = written_paths (trace (world c))
        ++ ((λ p, (output_dir, archive_name (fps (self c)) p.2))
              <$> zip keyframes indices) ∧
    fs (world c')
      = foldl (λ m p, write_file (output_dir, archive_name (fps (self c)) p.2)
                                 (ImageFile p.1) m)
              (fs w0) (zip keyframes indices).
Proof.
  intros Hfps.
  destruct (ensure_dir_run output_dir (world c)) as (w0 & Hens & Hwr0 & _).
  destruct (for_each_save_one output_dir (zip keyframes indices)
              {| self := self c; world := w0 |})
    as (c' & Hloop & Hself & _ & Htr & Hfs); [done|].
  exists w0, c'. split; [done|].
  unfold save_keyframes. unfold mbind, M_bind, in_world. rewrite Hens.
  split; [done|]. split; [done|]. cbn in Htr, Hfs. split; [|done].
  rewrite Htr, written_paths_app, Hwr0. f_equal.
  rewrite <- (written_paths_imwrite
                ((λ p, (output_dir, archive_name (fps (self c)) p.2))
                   <$> zip keyframes indices)).
  by rewrite <- list_fmap_compose.
Qed.

(** ** The low-resolution pass *)






(** ** Deduplication by whole second *)

Lemma archived_numbers_fresh (rate : Z) (fns : list Z) (seen : gset Z) (x : Z) :
  x ∈ archived_numbers rate fns seen → x ∈ fns ∧ x / rate ∉ seen.
Proof.
  revert seen. induction fns as [|fn fns IH]; intros seen Hx; cbn in Hx.
  - by apply elem_of_nil in Hx.
  - destruct (decide (fn / rate ∈ seen)) as [Hin|Hnin].
    + destruct (IH seen Hx). split; [by right|done].
    + apply elem_of_cons in Hx as [->|Hx]; [split; [by left|done]|].
      destruct (IH _ Hx) as [? Hfresh]. split; [by right|].
      intros Hs. apply Hfresh, elem_of_union. by right.
Qed.

Lemma archived_numbers_seen (rate : Z) (fns : list Z) (seen : gset Z) (s : Z) :
  s ∈ seen → filter (λ x, x / rate = s) (archived_numbers rate fns seen) = [].
Proof.
  intros Hs. apply elem_of_nil_inv. intros x Hx.
  apply list_elem_of_filter in Hx as [<- Hx].
  by apply archived_numbers_fresh in Hx as [_ Hfresh].
Qed.

(** Of a second not yet taken, exactly the first frame number is
    archived. *)
Lemma archived_numbers_first (rate : Z) (fns : list Z) (seen : gset Z)
    (s first : Z) :
  s ∉ seen →
  first_in_second rate fns s = Some first →
  filter (λ x, x / rate = s) (archived_numbers rate fns seen) = [first].
Proof.
  revert seen. induction fns as [|fn fns IH]; intros seen Hs Hfirst; [done|].
  cbn in Hfirst |- *.
  destruct (decide (fn / rate = s)) as [Heq|Hne].
  - injection Hfirst as ->. subst s.
    rewrite decide_False by done.
    rewrite filter_cons_True by done. f_equal.
    apply archived_numbers_seen, elem_of_union. left.
    by apply elem_of_singleton.
  - destruct (decide (fn / rate ∈ seen)) as [Hin|Hnin].
    + by apply IH.
    + rewrite filter_cons_False by done. apply IH; [|done].
      intros [Hin|Hin]%elem_of_union; [|done].
      apply elem_of_singleton in Hin. congruence.
Qed.

Lemma first_in_second_is_Some (rate : Z) (fns : list Z) (a : Z) :
  a ∈ fns → ∃ first, first_in_second rate fns (a / rate) = Some first ∧
                     first ∈ fns ∧ first / rate = a / rate.
Proof.
  induction fns as [|fn fns IH]; intros Ha; [by apply elem_of_nil in Ha|].
  cbn. destruct (decide (fn / rate = a / rate)) as [Heq|Hne].
  - exists fn. split; [done|]. split; [by left|done].
  - apply elem_of_cons in Ha as [->|Ha]; [done|].
    destruct (IH Ha) as (first & ? & ? & ?). exists first.
    split; [done|]. split; [by right|done].
Qed.

(** The extraction loop on an open context that decodes every requested
    frame. *)
Lemma extract_frames_loop_run (fns : list Z) (dir : Dir) (seen : gset Z) c :
  cap_opened (cap (self c)) = true →
  0 < fps (self c) →
  (∀ fn, fn ∈ fns →
         0 ≤ fn ∧ is_Some (cap_stream (cap (self c)) !! Z.to_nat fn)) →
  ∃ c' seen',
    extract_frames_loop fns dir seen c = (Ok seen', c') ∧
    written_paths (trace (world c'))
      = written_paths (trace (world c))
        ++ ((λ fn, (dir, archive_name (fps (self c)) fn))
              <$> archived_numbers (fps (self c)) fns seen).
Proof.
  revert seen c. induction fns as [|fn fns IH]; intros seen c Hop Hfps Hdec.
  - exists c, seen. cbn. by rewrite app_nil_r.
  - cbn [extract_frames_loop archived_numbers]. unfold_monad.
    replace (fps (self c) =? 0) with false by lia.
    destruct (Hdec fn) as [Hfn [frame Hframe]]; [by left|].
    rewrite (Z.quot_div_nonneg fn (fps (self c))) by lia.
    assert (∀ fn', fn' ∈ fns →
              0 ≤ fn' ∧ is_Some (cap_stream (cap (self c)) !! Z.to_nat fn'))
      as Hdec' by (intros; apply Hdec; by right).
    case_bool_decide as Hseen.
    + rewrite decide_True by done. by apply IH.
    + rewrite decide_False by done.
      unfold cap_set, cap_read, frame_at, set_cap, seek_cap. cbn.
      rewrite Hop. cbn. replace (0 <=? fn) with true by lia. cbn.
      rewrite Hframe. unfold imwrite. unfold_monad. cbn.
      match goal with |- context [extract_frames_loop fns dir ?s ?c1] =>
        destruct (IH s c1) as (c' & seen' & -> & Hwr) end; [done..|].
      exists c', seen'. split; [done|]. rewrite Hwr. cbn.
      rewrite !written_paths_snoc. cbn. rewrite app_nil_r.
      by rewrite <- !app_assoc.
Qed.


(** ** File names: printing and parsing *)

Lemma append_cons (x : ascii) (a b : string) :
  String x a +:+ b = String x (a +:+ b).
Proof. reflexivity. Qed.

Lemma string_app_assoc (a b s : string) : (a +:+ b) +:+ s = a +:+ (b +:+ s).
Proof.
  induction a as [|x a IH]; [done|]. rewrite !append_cons. by f_equal.
Qed.

Lemma only_digits_app (a b : string) :
  only_digits (a +:+ b) = only_digits a && only_digits b.
Proof.
  induction a as [|x a IH]; [done|]. rewrite append_cons. cbn.
  rewrite IH. by rewrite andb_assoc.
Qed.

Lemma only_digits_zeros (n : nat) : only_digits (Py.zeros n) = true.
Proof. induction n as [|n IH]; [done|]. cbn. by rewrite IH. Qed.

Lemma only_digits_string_of_uint (d : Decimal.uint) :
  only_digits (NilEmpty.string_of_uint d) = true.
Proof. induction d; cbn; by rewrite ?IHd. Qed.

Lemma digits_of_N_digits (n : N) :
  only_digits (Py.digits_of_N n) = true ∧ Py.digits_of_N n ≠ EmptyString.
Proof.
  unfold Py.digits_of_N, NilZero.string_of_uint.
  destruct (N.to_uint n) eqn:Hd; try done;
    (split; [rewrite <- Hd at 1 || idtac|done]);
    cbn; by rewrite ?only_digits_string_of_uint.
Qed.

Lemma uint_of_string_zeros (k : nat) (s : string) (d : Decimal.uint) :
  NilEmpty.uint_of_string s = Some d →
  ∃ d', NilEmpty.uint_of_string (Py.zeros k +:+ s) = Some d' ∧
        N.of_uint d' = N.of_uint d.
Proof.
  intros Hs. induction k as [|k (d' & Hd' & Heq)]; [by exists d|].
  exists (Decimal.D0 d'). cbn [Py.zeros]. rewrite append_cons. cbn.
  rewrite Hd'. by split.
Qed.

Lemma int_of_digits_padded (k : nat) (n : N) :
  Py.int_of_digits (Py.zeros k +:+ Py.digits_of_N n) = Some (Z.of_N n).
Proof.
  assert (∃ d, NilEmpty.uint_of_string (Py.digits_of_N n) = Some d ∧
               N.of_uint d = n) as (d & Hd & Hn).
  { unfold Py.digits_of_N, NilZero.string_of_uint.
    pose proof (DecimalN.Unsigned.of_to n) as Hof.
    destruct (N.to_uint n) eqn:Hu;
      try (eexists; split; [rewrite <- Hu at 1 || idtac|exact Hof];
           rewrite <- Hu; rewrite NilEmpty.usu; by rewrite Hu).
    exists (Decimal.D0 Decimal.Nil). split; [done|]. by rewrite <- Hof. }
  destruct (uint_of_string_zeros k _ d Hd) as (d' & Hd' & Heq).
  unfold Py.int_of_digits, NilZero.uint_of_string.
  destruct (digits_of_N_digits n) as [_ Hne].
  destruct (Py.zeros k +:+ Py.digits_of_N n) eqn:Hs.
  { destruct k; cbn in Hs; [done|discriminate]. }
  rewrite Hd'. by rewrite Heq, Hn.
Qed.

Lemma format_d_nonneg (width : nat) (z : Z) :
  0 ≤ z →
  only_digits (Py.format_d width z) = true ∧
  Py.format_d width z ≠ EmptyString ∧
  Py.int_of_digits (Py.format_d width z) = Some z.
Proof.
  intros Hz. unfold Py.format_d. replace (z <? 0) with false by lia.
  destruct (digits_of_N_digits (Z.to_N (Z.abs z))) as [Hd Hne].
  split; [|split].
  - by rewrite only_digits_app, only_digits_zeros, Hd.
  - destruct (Py.zeros _); [done|discriminate].
  - rewrite int_of_digits_padded. f_equal. lia.
Qed.

Lemma time_str_digits (t : Z) :
  0 ≤ t → only_digits (time_str t) = true ∧ time_str t ≠ EmptyString.
Proof.
  intros Ht. unfold time_str.
  destruct (format_d_nonneg 2 (t / 3600)) as (Hh & Hhne & _);
    [apply Z.div_pos; lia|].
  destruct (format_d_nonneg 2 (t `mod` 3600 / 60)) as (Hm & _ & _).
  { apply Z.div_pos; [|lia]. apply Z.mod_pos_bound. lia. }
  destruct (format_d_nonneg 2 (t `mod` 60)) as (Hs & _ & _).
  { apply Z.mod_pos_bound. lia. }
  split.
  - by rewrite !only_digits_app, Hh, Hm, Hs.
  - destruct (Py.format_d 2 (t / 3600)); [done|discriminate].
Qed.

Lemma append_nil_l (s : string) : EmptyString +:+ s = s.
Proof. reflexivity. Qed.

Lemma digits1_no_digit (k : string → option (list string)) (capture : bool)
    (acc rest : string) :
  no_leading_digit rest → Re.digits1 k capture acc rest = None.
Proof. destruct rest as [|x rest]; [done|]. cbn. by intros ->. Qed.

(** A maximal run of digits followed by a successful continuation is
    what [\d+] takes. *)
Lemma digits1_greedy (k : string → option (list string)) (capture : bool)
    (d rest acc : string) (groups : list string) :
  only_digits d = true → d ≠ EmptyString →
  no_leading_digit rest →
  k rest = Some groups →
  Re.digits1 k capture acc (d +:+ rest)
    = Some (if capture then (acc +:+ d) :: groups else groups).
Proof.
  intros Hd Hne Hrest Hk. revert acc.
  induction d as [|x d IH]; intros acc; [done|].
  rewrite append_cons. cbn in Hd |- *.
  apply andb_true_iff in Hd as [Hx Hd]. rewrite Hx.
  destruct d as [|y d].
  - rewrite append_nil_l, digits1_no_digit, Hk by done.
    by destruct capture.
  - rewrite IH by done.
    by rewrite string_app_assoc, append_cons.
Qed.

Lemma search_match (p : list Re.item) (s : string) (groups : list string) :
  Re.match_items p s = Some groups → Re.search p s = Some groups.
Proof. intros Hm. destruct s; cbn; by rewrite Hm. Qed.





(** The recovery scan reads back the index a file name was built from. *)
Lemma number_of_keyframe_name (idx : Z) (time : string) :
  0 ≤ idx → only_digits time = true → time ≠ EmptyString →
  number_of_name (keyframe_name idx time) = Some idx.
Proof.
  intros Hidx Htime Hne.
  destruct (format_d_nonneg 6 idx Hidx) as (Hd & Hdne & Hint).
  unfold number_of_name.
  rewrite (search_match _ _ [Py.format_d 6 idx]); [done|].
  unfold keyframe_name, keyframe_pattern.
  rewrite !append_cons, !append_nil_l. cbn -[Py.format_d Re.digits1].
  rewrite (digits1_greedy _ true _ _ EmptyString []); try done.
  cbn -[Py.format_d Re.digits1].
  by rewrite (digits1_greedy _ false _ _ EmptyString []).
Qed.

Lemma number_of_archive_name (rate idx : Z) :
  0 < rate → 0 ≤ idx → number_of_name (archive_name rate idx) = Some idx.
Proof.
  intros Hrate Hidx. unfold archive_name.
  destruct (time_str_digits (idx / rate)) as [Hd Hne];
    [apply Z.div_pos; lia|].
  by apply number_of_keyframe_name.
Qed.

(** ** The archive directory *)

Lemma create_dirs_lookup (ds : list Dir) (m : FS Frame) (d : Dir) :
  create_dirs ds m !! d
    = match m !! d with
      | Some entries => Some entries
      | None => if decide (d ∈ ds) then Some ∅ else None
      end.
Proof.
  revert m. induction ds as [|d0 ds IH]; intros m.
  - cbn. by destruct (m !! d).
  - cbn [create_dirs]. rewrite IH.
    destruct (m !! d0) as [e0|] eqn:Hd0.
    + destruct (m !! d) as [e|] eqn:Hd; [done|].
      destruct (decide (d ∈ ds)) as [Hin|Hnin].
      * rewrite decide_True by (by right). done.
      * rewrite decide_False; [done|]. intros [->|?]%elem_of_cons; [|done].
        congruence.
    + destruct (decide (d0 = d)) as [->|Hne].
      * rewrite lookup_insert_eq, Hd0. by rewrite decide_True by left.
      * rewrite lookup_insert_ne by done.
        destruct (m !! d) as [e|] eqn:Hd; [done|].
        destruct (decide (d ∈ ds)) as [Hin|Hnin].
        -- rewrite decide_True by (by right). done.
        -- rewrite decide_False; [done|].
           intros [?|?]%elem_of_cons; congruence.
Qed.

Lemma elem_of_ancestors_and_self (d d' : Dir) :
  d' ∈ ancestors_and_self d ↔ ∃ n, (n ≤ length d)%nat ∧ d' = take n d.
Proof.
  unfold ancestors_and_self. rewrite list_elem_of_fmap.
  setoid_rewrite elem_of_seq. split.
  - intros (n & -> & Hn). exists n. split; [lia|done].
  - intros (n & Hn & ->). exists n. split; [done|lia].
Qed.



(** Writing files into an existing directory adds their names to it and
    leaves every other directory alone. *)
Lemma foldl_write_file (dir : Dir) (name : Z → string)
    (pairs : list (Frame * Z)) (m : FS Frame) (entries : gmap string (File Frame)) :
  m !! dir = Some entries →
  ∃ entries',
    foldl (λ m p, write_file (dir, name p.2) (ImageFile p.1) m) m pairs !! dir
      = Some entries' ∧
    dom entries' = dom entries ∪ list_to_set (name <$> pairs.*2) ∧
    ∀ d', d' ≠ dir →
      foldl (λ m p, write_file (dir, name p.2) (ImageFile p.1) m) m pairs !! d'
        = m !! d'.
Proof.
  revert m entries. induction pairs as [|[kf idx] pairs IH]; intros m entries Hm.
  - exists entries. split; [done|]. split; [|done].
    cbn. by rewrite (right_id_L ∅ (∪)).
  - cbn [foldl]. unfold write_file at 2 4. cbn [fst snd]. rewrite Hm.
    destruct (IH (<[dir := <[name idx := ImageFile kf]> entries]> m)
                 (<[name idx := ImageFile kf]> entries))
      as (entries' & Hlookup & Hdom & Hother); [by rewrite lookup_insert_eq|].
    exists entries'. split; [done|]. split.
    + rewrite Hdom, dom_insert_L. cbn.
      rewrite (comm_L (∪) {[name idx]} (dom entries)).
      by rewrite <- (assoc_L (∪)).
    + intros d' Hne. rewrite Hother by done. by rewrite lookup_insert_ne.
Qed.



Lemma NoDup_archive_names (rate : Z) (indices : list Z) :
  0 < rate → Forall (λ i, 0 ≤ i) indices → NoDup indices →
  NoDup (archive_name rate <$> indices).
Proof.
  intros Hrate Hpos Hnd. apply NoDup_fmap_2_strong; [|done].
  rewrite Forall_forall in Hpos. intros i j Hi Hj Heq.
  assert (Some i = Some j) as [= ->]; [|done].
  rewrite <- (number_of_archive_name rate i), <- (number_of_archive_name rate j)
    by auto. by rewrite Heq.
Qed.


(** ** The pipeline: what touches [self] *)

Lemma keeps_self_bind {A B} (m : M (Locals Frame) A)
    (f : A → M (Locals Frame) B) :
  keeps_self m → (∀ a, keeps_self (f a)) → keeps_self (m ≫= f).
Proof.
  intros Hm Hf p r p' Hrun. unfold mbind, M_bind in Hrun.
  destruct (m p) as [[a|e] p1] eqn:Hmp.
  - rewrite (Hf a p1 r p' Hrun). by eapply Hm.
  - injection Hrun as <- <-. by eapply Hm.
Qed.

Lemma keeps_self_on_world {A} (m : M (World Frame) A) : keeps_self (on_world m).
Proof.
  intros p r p' Hrun. unfold on_world in Hrun.
  destruct (m (p_world p)). by injection Hrun as <- <-.
Qed.

Lemma keeps_self_on_mini {A} (m : M (Ctx Frame) A) : keeps_self (on_mini m).
Proof.
  intros p r p' Hrun. unfold on_mini in Hrun.
  destruct (mini_processor p); [|by injection Hrun as <- <-].
  destruct (m _). by injection Hrun as <- <-.
Qed.

Lemma keeps_self_ret {A} (a : A) : keeps_self (mret a : M (Locals Frame) A).
Proof. intros p r p' Hrun. by injection Hrun as <- <-. Qed.

Lemma keeps_self_gets {A} (f : Locals Frame → A) : keeps_self (gets f).
Proof. intros p r p' Hrun. by injection Hrun as <- <-. Qed.

Lemma keeps_self_set_mini_processor (mp : option (VideoProcessor Frame)) :
  keeps_self (set_mini_processor mp).
Proof. intros p r p' Hrun. by injection Hrun as <- <-. Qed.

Lemma keeps_self_set_compressed_video (cv : option Path) :
  keeps_self (set_compressed_video cv : M (Locals Frame) unit).
Proof. intros p r p' Hrun. by injection Hrun as <- <-. Qed.

Lemma keeps_self_try_except_reraise {A} (body : M (Locals Frame) A)
    (handler : M (Locals Frame) unit) :
  keeps_self body → keeps_self handler →
  keeps_self (try_except_reraise body handler).
Proof.
  intros Hb Hh p r p' Hrun. unfold try_except_reraise in Hrun.
  destruct (body p) as [[a|e] p1] eqn:Hbp.
  - injection Hrun as <- <-. by eapply Hb.
  - destruct (handler p1) as [[[]|e'] p2] eqn:Hhp;
      injection Hrun as <- <-; rewrite (Hh _ _ _ Hhp); by eapply Hb.
Qed.

(** The low-resolution pass works on the compressed copy only. *)
Lemma low_res_pass_keeps_self (temp_dir : Dir) (skip_seconds : Q)
    (threshold compressed_width : Z) :
  keeps_self (low_res_pass temp_dir skip_seconds threshold compressed_width).
Proof.
  unfold low_res_pass, plog.
  repeat first
    [ apply keeps_self_bind; [|intros ?]
    | apply keeps_self_on_world
    | apply keeps_self_on_mini
    | apply keeps_self_gets
    | apply keeps_self_set_mini_processor
    | apply keeps_self_set_compressed_video
    | apply keeps_self_try_except_reraise ].
Qed.

(** ** The pipeline: the cleanup *)

Lemma extends_by_refl (P : Event → bool) (t : list Event) : extends_by P t t.
Proof. exists []. by rewrite app_nil_r. Qed.

Lemma extends_by_trans (P : Event → bool) (t1 t2 t3 : list Event) :
  extends_by P t1 t2 → extends_by P t2 t3 → extends_by P t1 t3.
Proof.
  intros (e1 & -> & H1) (e2 & -> & H2). exists (e1 ++ e2).
  split; [by rewrite app_assoc|by apply Forall_app].
Qed.

Lemma extends_by_snoc (P : Event → bool) (t : list Event) (e : Event) :
  P e = true → extends_by P t (t ++ [e]).
Proof. intros He. exists [e]. split; [done|by constructor]. Qed.

Lemma extends_by_snoc_r (P : Event → bool) (t t' : list Event) (e : Event) :
  extends_by P t t' → P e = true → extends_by P t (t' ++ [e]).
Proof.
  intros Ht He. eapply extends_by_trans; [done|by apply extends_by_snoc].
Qed.

Lemma lookup_file_filter (P : Dir * gmap string (File Frame) → Prop)
    `{!∀ kv, Decision (P kv)} (path : Path) w w' :
  fs w' = filter P (fs w) →
  lookup_file path w = None → lookup_file path w' = None.
Proof.
  unfold lookup_file. intros -> Hnone.
  destruct (filter P (fs w) !! path.1) as [entries|] eqn:Hd; [|done].
  apply map_lookup_filter_Some in Hd as [Hd _]. by rewrite Hd in Hnone.
Qed.

Lemma lookup_file_delete (path : Path) w w' :
  fs w' = delete_file path (fs w) → lookup_file path w' = None.
Proof.
  unfold lookup_file, delete_file. intros ->.
  destruct (fs w !! path.1) as [entries|] eqn:Hd.
  - rewrite lookup_insert_eq. cbn. apply lookup_delete_eq.
  - by rewrite Hd.
Qed.

Lemma os_remove_run (path : Path) w :
  ∃ r w',
    os_remove path w = (r, w') ∧
    extends_by is_cleanup_event (trace w) (trace w') ∧
    (faults w = [] → faults w' = [] ∧ lookup_file path w' = None).
Proof.
  unfold os_remove, next_fault, path_exists_file, path_exists_dir.
  unfold_monad.
  destruct (faults w) as [|[] rest] eqn:Hf.
  - case_bool_decide as Hp.
    + eexists _, _. split; [reflexivity|]. cbn.
      split; [by apply extends_by_snoc|]. intros _. split; [done|].
      by eapply lookup_file_delete.
    + eexists _, _. split; [reflexivity|]. cbn.
      split; [by apply extends_by_snoc|]. intros _. split; [done|].
      unfold lookup_file in *. cbn.
      by destruct (fs w !! path.1 ≫= _); [destruct Hp|].
  - eexists _, _. split; [reflexivity|]. cbn.
    split; [by apply extends_by_snoc|done].
  - cbn. case_bool_decide as Hp.
    + eexists _, _. split; [reflexivity|]. cbn.
      split; [by apply extends_by_snoc|done].
    + eexists _, _. split; [reflexivity|]. cbn.
      split; [by apply extends_by_snoc|done].
Qed.

Lemma rmtree_run (d : Dir) w :
  ∃ r w',
    rmtree d w = (r, w') ∧
    extends_by is_cleanup_event (trace w) (trace w') ∧
    (faults w = [] → is_Some (fs w !! d) →
     r = Ok tt ∧ faults w' = [] ∧
     fs w' = filter (λ kv, is_prefix_of d kv.1 = false) (fs w)).
Proof.
  unfold rmtree, next_fault, path_exists_dir. unfold_monad.
  destruct (faults w) as [|[] rest] eqn:Hf.
  - case_bool_decide as Hp.
    + eexists _, _. split; [reflexivity|]. cbn.
      split; [by apply extends_by_snoc|done].
    + eexists _, _. split; [reflexivity|]. cbn.
      split; [by apply extends_by_snoc|done].
  - eexists _, _. split; [reflexivity|]. cbn.
    split; [by apply extends_by_snoc|done].
  - cbn. case_bool_decide as Hp.
    + eexists _, _. split; [reflexivity|]. cbn.
      split; [by apply extends_by_snoc|done].
    + eexists _, _. split; [reflexivity|]. cbn.
      split; [by apply extends_by_snoc|done].
Qed.

(** The retry loop never raises. *)
Lemma rmtree_retry_run (max_retries : Z) (turns : list Z) (d : Dir) w :
  ∃ w',
    rmtree_retry max_retries turns d w = (Ok tt, w') ∧
    extends_by is_cleanup_event (trace w) (trace w') ∧
    (turns ≠ [] → faults w = [] → is_Some (fs w !! d) →
     fs w' = filter (λ kv, is_prefix_of d kv.1 = false) (fs w)).
Proof.
  revert w. induction turns as [|i turns IH]; intros w.
  - exists w. split; [done|]. split; [apply extends_by_refl|done].
  - cbn [rmtree_retry].
    destruct (rmtree_run d w) as (r & w1 & -> & Hext & Hok).
    destruct r as [[]|e].
    + exists w1. split; [done|]. split; [done|].
      intros _ Hf Hd. by destruct (Hok Hf Hd) as (_ & _ & ->).
    + destruct (i =? max_retries - 1).
      * unfold_monad. cbn beta iota.
        destruct (IH (add_event (EvLog WarnRmtreeFailed) w1))
          as (w' & -> & Hext' & _).
        exists w'. split; [done|]. split.
        -- eapply extends_by_trans; [|done]. by apply extends_by_snoc_r.
        -- intros _ Hf Hd. by destruct (Hok Hf Hd).
      * unfold_monad. cbn beta iota.
        destruct (IH (add_event EvSleep w1)) as (w' & -> & Hext' & _).
        exists w'. split; [done|]. split.
        -- eapply extends_by_trans; [|done]. by apply extends_by_snoc_r.
        -- intros _ Hf Hd. by destruct (Hok Hf Hd).
Qed.

Lemma remove_compressed_run (q : Locals Frame) :
  ∃ w',
    remove_compressed q = (Ok tt, with_world q w') ∧
    extends_by is_cleanup_event (trace (p_world q)) (trace w') ∧
    (faults (p_world q) = [] →
     faults w' = [] ∧
     ∀ cv, compressed_video q = Some cv → lookup_file cv w' = None).
Proof.
  unfold remove_compressed. unfold_monad.
  destruct (compressed_video q) as [cv|] eqn:Hcv.
  - unfold on_world at 1, os_path_exists, gets. cbn beta iota.
    destruct (bool_decide (is_Some (lookup_file cv (p_world q))) || _)
      eqn:Hp.
    + unfold try_except, on_world.
      destruct (os_remove_run cv (p_world (with_world q (p_world q))))
        as (r & w1 & Hrun & Hext & Hok).
      rewrite Hrun. destruct r as [[]|e].
      * exists w1. split; [done|]. split; [done|].
        intros Hf. destruct (Hok Hf) as [Hf1 Hgone].
        split; [done|]. by intros cv' [= <-].
      * unfold plog, on_world. unfold_monad. cbn.
        eexists. split; [reflexivity|].
        split; [by apply extends_by_snoc_r|].
        intros Hf. destruct (Hok Hf) as [Hf1 Hgone].
        split; [done|]. by intros cv' [= <-].
    + exists (p_world q). split; [by destruct q|].
      split; [apply extends_by_refl|]. intros Hf. split; [done|].
      intros cv' [= <-]. apply orb_false_iff in Hp as [Hp _].
      apply bool_decide_eq_false in Hp.
      by destruct (lookup_file cv (p_world q)); [destruct Hp|].
  - exists (p_world q). split; [by destruct q|].
    split; [apply extends_by_refl|]. by intros Hf.
Qed.

Lemma remove_temp_dir_run (temp_dir : Dir) (q : Locals Frame) :
  ∃ w',
    remove_temp_dir temp_dir q = (Ok tt, with_world q w') ∧
    extends_by is_cleanup_event (trace (p_world q)) (trace w') ∧
    (faults (p_world q) = [] →
     fs w' !! temp_dir = None ∧
     ∀ cv, lookup_file cv (p_world q) = None → lookup_file cv w' = None).
Proof.
  unfold remove_temp_dir. unfold_monad.
  unfold on_world at 1, path_exists_dir, gets. cbn beta iota.
  case_bool_decide as Hp.
  - unfold on_world.
    destruct (rmtree_retry_run 3 (Py.range 0 3) temp_dir
                (p_world (with_world q (p_world q))))
      as (w1 & Hrun & Hext & Hok).
    rewrite Hrun. exists w1. split; [done|]. split; [done|].
    intros Hf. specialize (Hok ltac:(done) Hf Hp). split.
    + rewrite Hok. apply map_lookup_filter_None. right.
      intros entries _. cbn. unfold is_prefix_of.
      rewrite bool_decide_true; [done|]. by rewrite firstn_all.
    + intros cv. by eapply lookup_file_filter.
  - exists (p_world q). split; [by destruct q|].
    split; [apply extends_by_refl|]. intros _. split; [|done].
    cbn in Hp. destruct (fs (p_world q) !! temp_dir) eqn:Hd; [|done].
    by destruct Hp.
Qed.

(** Deleting the temporary files never raises; when the environment
    injects no failure, the temporary directory and the compressed video
    are gone afterwards. *)
Lemma remove_temp_run (temp_dir : Dir) (q : Locals Frame) :
  ∃ w',
    try_except (remove_temp temp_dir) (plog WarnCleanupError) q
      = (Ok tt, with_world q w') ∧
    extends_by is_cleanup_event (trace (p_world q)) (trace w') ∧
    (faults (p_world q) = [] →
     fs w' !! temp_dir = None ∧
     ∀ cv, compressed_video q = Some cv → lookup_file cv w' = None).
Proof.
  destruct (remove_compressed_run q) as (w1 & Hrun1 & Hext1 & Hok1).
  destruct (remove_temp_dir_run temp_dir (with_world q w1))
    as (w2 & Hrun2 & Hext2 & Hok2).
  exists (add_event (EvLog InfoCleaned) w2).
  split; [|split].
  - unfold try_except, remove_temp. unfold mbind, M_bind.
    rewrite Hrun1, Hrun2. done.
  - cbn. apply extends_by_snoc_r; [|done]. by eapply extends_by_trans.
  - intros Hf. destruct (Hok1 Hf) as [Hf1 Hcv].
    destruct (Hok2 Hf1) as [Htemp Hkeep]. cbn. split; [done|].
    intros cv Hsome. apply Hkeep. cbn. by apply Hcv.
Qed.

(** The [finally] block never raises: it releases both decode contexts
    and, unless asked to keep them, deletes the temporary files. *)
Lemma pipeline_finally_run (output_dir : Dir) (keep_temp : bool)
    (q : Locals Frame) :
  ∃ q' evs,
    pipeline_finally output_dir keep_temp q = (Ok tt, q') ∧
    cap_opened (cap (p_self q')) = false ∧
    mini_processor q' = None ∧
    trace (p_world q') = trace (p_world q) ++ evs ∧
    Forall (λ e, is_cleanup_event e = true) evs ∧
    EvRelease (video_path (p_self q)) ∈ evs ∧
    (∀ mp, mini_processor q = Some mp → EvRelease (video_path mp) ∈ evs) ∧
    (keep_temp = true → fs (p_world q') = fs (p_world q)) ∧
    (keep_temp = false → faults (p_world q) = [] →
     fs (p_world q') !! (output_dir ++ ["temp"]) = None ∧
     ∀ cv, compressed_video q = Some cv →
           lookup_file cv (p_world q') = None).
Proof.
  set (released :=
         {| p_self := set_cap release_cap (p_self q);
            p_world :=
              add_event EvSleep
                (add_event (EvRelease (video_path (p_self q)))
                   (match mini_processor q with
                    | Some mp => add_event (EvRelease (video_path mp)) (p_world q)
                    | None => p_world q
                    end));
            mini_processor := None;
            compressed_video := compressed_video q |}).
  assert (pipeline_finally output_dir keep_temp q
          = (if keep_temp then mret tt
             else try_except (remove_temp (output_dir ++ ["temp"]))
                    (plog WarnCleanupError)) released) as Hfinal.
  { unfold pipeline_finally, released. unfold_monad.
    unfold on_mini, on_self, on_world, set_mini_processor, cap_release.
    unfold_monad. destruct q as [me w [mp|] cv]; reflexivity. }
  set (evs0 := match mini_processor q with
               | Some mp => [EvRelease (video_path mp)]
               | None => []
               end ++ [EvRelease (video_path (p_self q)); EvSleep]).
  assert (trace (p_world released) = trace (p_world q) ++ evs0 ∧
          Forall (λ e, is_cleanup_event e = true) evs0 ∧
          EvRelease (video_path (p_self q)) ∈ evs0 ∧
          (∀ mp, mini_processor q = Some mp →
                 EvRelease (video_path mp) ∈ evs0) ∧
          fs (p_world released) = fs (p_world q) ∧
          faults (p_world released) = faults (p_world q))
    as (Htr & Hall & Hrel & Hrelm & Hfs & Hfaults).
  { unfold released, evs0. cbn. destruct (mini_processor q) as [mp|]; cbn.
    - split; [by rewrite <- !app_assoc|]. split; [by repeat constructor|].
      split; [by repeat constructor|]. split; [|done].
      intros mp' [= <-]. by repeat constructor.
    - split; [by rewrite <- !app_assoc|]. split; [by repeat constructor|].
      split; [by repeat constructor|]. done. }
  rewrite Hfinal. destruct keep_temp.
  - exists released, evs0. by repeat split.
  - destruct (remove_temp_run (output_dir ++ ["temp"]) released)
      as (w' & Hrun & (evs1 & Htr1 & Hall1) & Hok).
    exists (with_world released w'), (evs0 ++ evs1).
    split; [done|]. split; [done|]. split; [done|]. split.
    { cbn. by rewrite Htr1, Htr, <- app_assoc. }
    split; [by apply Forall_app|].
    split; [apply elem_of_app; by left|].
    split.
    { intros mp Hmp. apply elem_of_app. left. by apply Hrelm. }
    split; [done|]. intros _ Hf. apply Hok. by rewrite Hfaults.
Qed.

(** ** The pipeline: failures *)

Lemma pipeline_setup_run (output_dir : Dir) (p : Locals Frame) :
  pipeline_setup output_dir p = (Ok tt, (pipeline_setup output_dir p).2) ∧
  p_self (pipeline_setup output_dir p).2 = p_self p.
Proof. by split. Qed.

(** An exception of the [try] block is logged, the [finally] block runs,
    and the exception leaves the method. *)
Lemma run_pipeline_failure (output_dir : Dir) (skip_seconds : Q)
    (threshold compressed_width : Z) (keep_temp : bool)
    (p p2 : Locals Frame) (e : exn) :
  (low_res_pass (output_dir ++ ["temp"]) skip_seconds threshold
     compressed_width;;
   high_res_pass (output_dir ++ ["temp"]) output_dir)
    (pipeline_setup output_dir p).2 = (Err e, p2) →
  run_pipeline output_dir skip_seconds threshold compressed_width keep_temp p
    = (Err e, (pipeline_finally output_dir keep_temp
                 (plog ErrorFailed p2).2).2).
Proof.
  intros Hbody. unfold run_pipeline.
  unfold mbind at 1. unfold M_bind at 1.
  rewrite (proj1 (pipeline_setup_run output_dir p)).
  unfold try_finally, pipeline_try, try_except_reraise.
  rewrite Hbody.
  destruct (pipeline_finally_run output_dir keep_temp (plog ErrorFailed p2).2)
    as (q' & evs & Hfinal & _).
  change (plog ErrorFailed p2) with (Ok tt, (plog ErrorFailed p2).2).
  cbn beta iota. cbn [snd]. by rewrite Hfinal.
Qed.

(** C4: (1) when the low-resolution pass succeeds and the scan of the
    mini-frames directory returns no index, the pipeline raises
    [NoKeyframesFound]; the state it ends in is the one the scan left,
    plus the error log line and the [finally] block, and [self] was not
    touched before that block.  (2) Whatever exception the [try] block
    raises, the pipeline ends in the state the [finally] block makes of
    the state of the failure, and raises that exception.  (3) The
    [finally] block never raises; it only releases, waits, deletes and
    logs; it releases the contexts of [self] and of the low-resolution
    processor; with [keep_temp] it deletes nothing, and without it and
    without injected deletion failures the temporary directory and the
    compressed video are gone. *)
Theorem pipeline_failure_handling (output_dir : Dir) (skip_seconds : Q)
    (threshold compressed_width : Z) (keep_temp : bool) (p : Locals Frame) :
  let temp_dir := output_dir ++ ["temp"] in
  let p1 := (pipeline_setup output_dir p).2 in
  (∀ p2 p3 : Locals Frame,
     low_res_pass temp_dir skip_seconds threshold compressed_width p1
       = (Ok tt, p2) →
     on_world (extract_numbers_from_folder (temp_dir ++ ["mini_frames"]))
       (plog InfoStep3 p2).2 = (Ok [], p3) →
     run_pipeline output_dir skip_seconds threshold compressed_width
       keep_temp p
       = (Err NoKeyframesFound,
          (pipeline_finally output_dir keep_temp (plog ErrorFailed p3).2).2) ∧
     p_self p3 = p_self p) ∧
  (∀ (e : exn) (p2 : Locals Frame),
     (low_res_pass temp_dir skip_seconds threshold compressed_width;;
      high_res_pass temp_dir output_dir) p1 = (Err e, p2) →
     run_pipeline output_dir skip_seconds threshold compressed_width
       keep_temp p
       = (Err e,
          (pipeline_finally output_dir keep_temp (plog ErrorFailed p2).2).2)) ∧
  (∀ q : Locals Frame, ∃ q' evs,
     pipeline_finally output_dir keep_temp q = (Ok tt, q') ∧
     cap_opened (cap (p_self q')) = false ∧
     mini_processor q' = None ∧
     trace (p_world q') = trace (p_world q) ++ evs ∧
     Forall (λ e, is_cleanup_event e = true) evs ∧
     EvRelease (video_path (p_self q)) ∈ evs ∧
     (∀ mp, mini_processor q = Some mp → EvRelease (video_path mp) ∈ evs) ∧
     (keep_temp = true → fs (p_world q') = fs (p_world q)) ∧
     (keep_temp = false → faults (p_world q) = [] →
      fs (p_world q') !! temp_dir = None ∧
      ∀ cv, compressed_video q = Some cv →
            lookup_file cv (p_world q') = None)).
Proof.
  intros temp_dir p1. split; [|split].
  - intros p2 p3 Hlow Hscan. split.
    + apply run_pipeline_failure. fold temp_dir p1.
      unfold mbind at 1. unfold M_bind at 1. rewrite Hlow.
      unfold high_res_pass. unfold mbind at 1. unfold M_bind at 1.
      change (plog InfoStep3 p2) with (Ok tt, (plog InfoStep3 p2).2).
      cbn beta iota. unfold mbind, M_bind. by rewrite Hscan.
    + assert (p_self p2 = p_self p1) as Hself
        by (by eapply low_res_pass_keeps_self).
      unfold on_world in Hscan.
      destruct (extract_numbers_from_folder _ _) as [r w'].
      injection Hscan as _ <-. cbn. rewrite Hself.
      apply pipeline_setup_run.
  - intros e p2 Hbody. by apply run_pipeline_failure.
  - intros q. apply pipeline_finally_run.
Qed.

(** ** Reading again, and reading what was opened *)

(** Whatever the position of an open context, the read loop starts over
    from frame 0, delivers the whole stream, and leaves the context open
    on the same stream. *)
Lemma preprocess_video_whole_stream c :
  cap_opened (cap (self c)) = true →
  ∃ c', preprocess_video c = (Ok (cap_stream (cap (self c))), c') ∧
        cap_opened (cap (self c')) = true ∧
        cap_stream (cap (self c')) = cap_stream (cap (self c)).
Proof.
  intros Hop. unfold preprocess_video. unfold_monad. unfold cap_set.
  match goal with |- context [read_frames ?n ?c1] =>
    destruct (read_frames_opened n c1) as (c' & Hr & Hop' & Hst & _) end.
  - cbn. unfold seek_cap. by rewrite Hop.
  - cbn. unfold seek_cap. by rewrite Hop.
  - cbn. unfold seek_cap. rewrite Hop. cbn. lia.
  - exists c'. rewrite Hr. cbn in Hst |- *. unfold seek_cap in Hst |- *.
    rewrite Hop in Hst |- *. cbn in Hst |- *. by rewrite drop_0.
Qed.

(** X1: on an open context, [preprocess_video] consumed twice in a row
    delivers the whole stream both times, whatever the position the
    context was at. *)
Theorem preprocess_video_twice c :
  cap_opened (cap (self c)) = true →
  ∃ c1 c2,
    preprocess_video c = (Ok (cap_stream (cap (self c))), c1) ∧
    preprocess_video c1 = (Ok (cap_stream (cap (self c))), c2).
Proof.
  intros Hop.
  destruct (preprocess_video_whole_stream c Hop) as (c1 & Hr1 & Hop1 & Hst1).
  destruct (preprocess_video_whole_stream c1 Hop1) as (c2 & Hr2 & _).
  exists c1, c2. split; [done|]. by rewrite <- Hst1.
Qed.

(** X2: the constructor never changes the world.  On a video file it
    returns a processor with the header's frame count and frame rate
    whose read loop delivers the frames of the file; on a name that
    does not exist, as a file or as a directory, it raises
    [FileNotFoundError]. *)
Theorem init_then_read (path : Path) w :
  (∀ v, lookup_file path w = Some (VideoFile v) →
     ∃ vp c',
       init path w = (Ok vp, w) ∧
       video_path vp = path ∧
       total_frames vp = v_frame_count v ∧
       fps vp = v_fps v ∧
       preprocess_video {| self := vp; world := w |} = (Ok (v_frames v), c')) ∧
  (lookup_file path w = None → fs w !! (path.1 ++ [path.2]) = None →
   init path w = (Err FileNotFoundError, w)).
Proof.
  split.
  - intros v Hv.
    set (vp := {| video_path := path;
                  cap := {| cap_stream := v_frames v;
                            cap_opened := true; cap_pos := 0 |};
                  total_frames := v_frame_count v;
                  fps := v_fps v |}).
    destruct (preprocess_video_whole_stream {| self := vp; world := w |})
      as (c' & Hr & _); [done|].
    exists vp, c'. split; [|done].
    unfold init, os_path_exists. unfold_monad.
    rewrite Hv. rewrite bool_decide_true by done. cbn [orb].
    by rewrite Hv.
  - intros Hnone Hdir. unfold init, os_path_exists. unfold_monad.
    rewrite Hnone, Hdir.
    rewrite !bool_decide_false by (by intros [? ?]). done.
Qed.

Lemma slice_from_nil {A} (start : Z) : Py.slice_from (@nil A) start = [].
Proof. unfold Py.slice_from. by rewrite drop_nil. Qed.

(** X3: on a released context [process_video] raises "no frames left"
    whatever the skip: it writes no file, creates no directory, and does
    not reach the detection. *)
Theorem process_video_after_release c (output_dir : Dir) (skip_seconds : Q)
    (threshold : Z) :
  cap_opened (cap (self c)) = false →
  ∃ c', process_video output_dir skip_seconds threshold c
          = (Err (ValueError NoFramesLeft), c') ∧
        self c' = self c ∧
        fs (world c') = fs (world c) ∧
        trace (world c')
          = trace (world c)
            ++ [EvLog InfoReadingFrames; EvSeek (video_path (self c)) 0].
Proof.
  intros Hcl. unfold process_video. unfold_monad. cbn.
  rewrite (preprocess_video_released
             {| self := self c;
                world := add_event (EvLog InfoReadingFrames) (world c) |})
    by done.
  rewrite slice_from_nil. eexists. split; [reflexivity|]. cbn.
  split; [done|]. split; [done|]. by rewrite <- app_assoc.
Qed.

(** ** The recovery scan on any directory *)



(** ** An ascending list of frame numbers *)

Lemma first_in_second_least (rate : Z) (fns : list Z) (s first : Z) :
  0 < rate → Sorted Z.le fns →
  first_in_second rate fns s = Some first →
  first ∈ fns ∧ first / rate = s ∧
  ∀ x, x ∈ fns → x / rate = s → first ≤ x.
Proof.
  intros Hrate Hsorted. apply Sorted_StronglySorted in Hsorted; [|intros ???; lia].
  induction Hsorted as [|fn fns Hs IH Hall]; intros Hfirst; [done|].
  cbn in Hfirst. destruct (decide (fn / rate = s)) as [Heq|Hne].
  - injection Hfirst as <-. split; [by left|]. split; [done|].
    intros x [->|Hx]%elem_of_cons _; [lia|].
    rewrite Forall_forall in Hall. by apply Hall.
  - destruct (IH Hfirst) as (Hin & Hsec & Hleast).
    split; [by right|]. split; [done|].
    intros x [->|Hx]%elem_of_cons Hxs; [done|]. by apply Hleast.
Qed.

(** X5: when no file stands in the way of the output directory, the
    frame numbers are given in ascending order, as the scan returns
    them, and every decode succeeds, the one number archived for a whole
    second is the smallest input number of that second. *)
Theorem extract_frames_by_numbers_keeps_smallest c (fns : list Z)
    (dir : Dir) :
  unobstructed dir (fs (world c)) →
  cap_opened (cap (self c)) = true →
  0 < fps (self c) →
  fns ≠ [] →
  Sorted Z.le fns →
  (∀ fn, fn ∈ fns → 0 ≤ fn < total_frames (self c)) →
  (∀ fn, fn ∈ fns → is_Some (cap_stream (cap (self c)) !! Z.to_nat fn)) →
  ∃ (c' : Ctx Frame) (archived : list Z),
    extract_frames_by_numbers fns dir c = (Ok tt, c') ∧
    written_paths (trace (world c'))
      = written_paths (trace (world c))
        ++ ((λ fn, (dir, archive_name (fps (self c)) fn)) <$> archived) ∧
    ∀ a, a ∈ fns →
      ∃ least,
        filter (λ x, x / fps (self c) = a / fps (self c)) archived = [least] ∧
        least ∈ fns ∧ least ≤ a ∧
        ∀ x, x ∈ fns → x / fps (self c) = a / fps (self c) → least ≤ x.
Proof.
  intros _ Hop Hfps Hne Hsorted Hvalid Hdec.
  rewrite extract_frames_by_numbers_valid by done.
  destruct (ensure_dir_run dir (world c)) as (w0 & Hens & Hwr0 & _).
  unfold mbind at 1. unfold M_bind at 1. unfold in_world at 1. rewrite Hens.
  destruct (extract_frames_loop_run fns dir ∅ {| self := self c; world := w0 |})
    as (c' & seen' & Hloop & Hwr); [done..| |].
  { intros fn Hfn. split; [by apply Hvalid|by apply Hdec]. }
  unfold mbind, M_bind. rewrite Hloop. cbn in Hwr.
  eexists _, (archived_numbers (fps (self c)) fns ∅).
  split; [reflexivity|]. split.
  - cbn. by rewrite written_paths_snoc, app_nil_r, Hwr, Hwr0.
  - intros a Ha.
    destruct (first_in_second_is_Some (fps (self c)) fns a Ha)
      as (first & Hfirst & _).
    destruct (first_in_second_least _ _ _ _ Hfps Hsorted Hfirst)
      as (Hin & _ & Hleast).
    exists first. split; [|split; [done|split; [by apply Hleast|done]]].
    by apply archived_numbers_first; [apply not_elem_of_empty|].
Qed.

(** ** Frames that cannot be decoded *)

Lemma archived_numbers_filter_seen (rate : Z) (P : Z → Prop)
    `{!∀ x, Decision (P x)} (fn : Z) (rest : list Z) (seen : gset Z) :
  fn / rate ∈ seen →
  archived_numbers rate (filter P (fn :: rest)) seen
    = archived_numbers rate (filter P rest) seen.
Proof.
  intros Hseen. rewrite filter_cons. destruct (decide (P fn)); [|done].
  cbn. by rewrite decide_True.
Qed.

(** The extraction loop on any context: a frame number that cannot be
    decoded is passed over and its second stays free. *)
Lemma extract_frames_loop_gaps (fns : list Z) (dir : Dir) (seen : gset Z) c :
  0 < fps (self c) →
  (∀ fn, fn ∈ fns → 0 ≤ fn) →
  ∃ c' seen',
    extract_frames_loop fns dir seen c = (Ok seen', c') ∧
    written_paths (trace (world c'))
      = written_paths (trace (world c))
        ++ ((λ fn, (dir, archive_name (fps (self c)) fn))
              <$> archived_numbers (fps (self c))
                    (filter (λ fn, readable (cap (self c)) fn = true) fns)
                    seen).
Proof.
  revert seen c. induction fns as [|fn fns IH]; intros seen c Hfps Hpos.
  - exists c, seen. cbn. by rewrite app_nil_r.
  - destruct c as [[vp [stream opened pos] tf r] w]. cbn in Hfps.
    cbn [extract_frames_loop]. unfold_monad. cbn [self fps cap].
    replace (r =? 0) with false by lia.
    assert (0 ≤ fn) as Hfn by (apply Hpos; by left).
    rewrite (Z.quot_div_nonneg fn r) by lia.
    assert (∀ fn', fn' ∈ fns → 0 ≤ fn') as Hpos'
      by (intros; apply Hpos; by right).
    case_bool_decide as Hseen.
    + rewrite archived_numbers_filter_seen by done. by apply IH.
    + rewrite filter_cons.
      unfold cap_set, cap_read, frame_at, set_cap, seek_cap. cbn.
      unfold readable at 1. cbn.
      destruct opened; cbn.
      * replace (0 <=? fn) with true by lia. cbn.
        destruct (stream !! Z.to_nat fn) as [frame|] eqn:Hfr.
        -- rewrite bool_decide_true by done.
           rewrite decide_True by done. cbn [archived_numbers].
           rewrite decide_False by done.
           unfold imwrite. unfold_monad. cbn.
           match goal with |- context [extract_frames_loop fns dir ?s ?c1] =>
             destruct (IH s c1) as (c' & seen' & -> & Hwr) end; [done..|].
           exists c', seen'. split; [done|]. rewrite Hwr. cbn.
           rewrite !written_paths_snoc. cbn. rewrite app_nil_r.
           by rewrite <- !app_assoc.
        -- rewrite bool_decide_false by (by intros [? ?]).
           rewrite decide_False by done.
           match goal with |- context [extract_frames_loop fns dir ?s ?c1] =>
             destruct (IH s c1) as (c' & seen' & -> & Hwr) end; [done..|].
           exists c', seen'. split; [done|]. rewrite Hwr. cbn.
           rewrite !written_paths_snoc. cbn. by rewrite !app_nil_r.
      * rewrite decide_False by done.
        match goal with |- context [extract_frames_loop fns dir ?s ?c1] =>
          destruct (IH s c1) as (c' & seen' & -> & Hwr) end; [done..|].
        exists c', seen'. split; [done|]. rewrite Hwr. cbn.
        rewrite !written_paths_snoc. cbn. by rewrite !app_nil_r.
Qed.

(** X6: when no file stands in the way of the output directory, with
    a positive frame rate and valid frame numbers,
    [extract_frames_by_numbers] returns normally whatever can be
    decoded.  Only decodable numbers are archived; a number that cannot
    be decoded does not take its second: for every decodable input
    number, the one number archived for its second is the first
    decodable input number of that second. *)
Theorem extract_frames_by_numbers_decode_gaps c (fns : list Z) (dir : Dir) :
  unobstructed dir (fs (world c)) →
  0 < fps (self c) →
  fns ≠ [] →
  (∀ fn, fn ∈ fns → 0 ≤ fn < total_frames (self c)) →
  ∃ (c' : Ctx Frame) (archived : list Z),
    extract_frames_by_numbers fns dir c = (Ok tt, c') ∧
    written_paths (trace (world c'))
      = written_paths (trace (world c))
        ++ ((λ fn, (dir, archive_name (fps (self c)) fn)) <$> archived) ∧
    (∀ x, x ∈ archived → x ∈ fns ∧ readable (cap (self c)) x = true) ∧
    (∀ a, a ∈ fns → readable (cap (self c)) a = true →
       ∃ first,
         first_in_second (fps (self c))
           (filter (λ fn, readable (cap (self c)) fn = true) fns)
           (a / fps (self c)) = Some first ∧
         filter (λ x, x / fps (self c) = a / fps (self c)) archived
           = [first]).
Proof.
  intros _ Hfps Hne Hvalid.
  rewrite extract_frames_by_numbers_valid by done.
  destruct (ensure_dir_run dir (world c)) as (w0 & Hens & Hwr0 & _).
  unfold mbind at 1. unfold M_bind at 1. unfold in_world at 1. rewrite Hens.
  destruct (extract_frames_loop_gaps fns dir ∅ {| self := self c; world := w0 |})
    as (c' & seen' & Hloop & Hwr); [done| |].
  { intros fn Hfn. by apply Hvalid. }
  unfold mbind, M_bind. rewrite Hloop. cbn in Hwr.
  eexists _, _. split; [reflexivity|]. split; [|split].
  - cbn. by rewrite written_paths_snoc, app_nil_r, Hwr, Hwr0.
  - intros x Hx. apply archived_numbers_fresh in Hx as [Hx _].
    by apply list_elem_of_filter in Hx as [? ?].
  - intros a Ha Hread.
    destruct (first_in_second_is_Some (fps (self c))
                (filter (λ fn, readable (cap (self c)) fn = true) fns) a)
      as (first & Hfirst & _); [by apply list_elem_of_filter|].
    exists first. split; [done|].
    by apply archived_numbers_first; [apply not_elem_of_empty|].
Qed.

(** ** The files of an archive *)

Lemma snd_zip_take {A B} (l : list A) (k : list B) :
  (zip l k).*2 = take (length l) k.
Proof.
  revert k. induction l as [|x l IH]; intros [|y k]; cbn; try done.
  by rewrite IH.
Qed.

Lemma ensure_dir_lookup_file (d : Dir) w w0 :
  ensure_dir d w = (Ok tt, w0) →
  is_Some (fs w0 !! d) ∧ ∀ p, lookup_file p w0 = lookup_file p w.
Proof.
  intros Hrun.
  destruct (ensure_dir_run d w) as (w0' & Hrun' & _ & _ & Hsame & Hnew).
  rewrite Hrun in Hrun'. injection Hrun' as <-.
  destruct (fs w !! d) as [e|] eqn:Hd.
  - rewrite (Hsame ltac:(done)). by rewrite Hd.
  - specialize (Hnew eq_refl). split.
    + rewrite Hnew, create_dirs_lookup, Hd. rewrite decide_True; [done|].
      apply elem_of_ancestors_and_self. exists (length d).
      split; [done|]. by rewrite firstn_all.
    + intros p. unfold lookup_file. rewrite Hnew, create_dirs_lookup.
      destruct (fs w !! p.1); [done|]. by destruct (decide _).
Qed.

(** Writing files under distinct names: each name holds its frame, every
    other name holds what it held. *)
Lemma foldl_write_lookup (dir : Dir) (name : Z → string)
    (pairs : list (Frame * Z)) (m : FS Frame)
    (entries : gmap string (File Frame)) :
  m !! dir = Some entries →
  NoDup (name <$> pairs.*2) →
  ∃ entries',
    foldl (λ m p, write_file (dir, name p.2) (ImageFile p.1) m) m pairs !! dir
      = Some entries' ∧
    (∀ (k : nat) kf idx, pairs !! k = Some (kf, idx) →
       entries' !! name idx = Some (ImageFile kf)) ∧
    (∀ n, n ∉ name <$> pairs.*2 → entries' !! n = entries !! n).
Proof.
  revert m entries. induction pairs as [|[kf0 idx0] pairs IH];
    intros m entries Hm Hnd.
  - exists entries. by repeat split.
  - cbn in Hnd. apply NoDup_cons in Hnd as [Hfresh Hnd].
    cbn [foldl]. unfold write_file at 2. cbn [fst snd]. rewrite Hm.
    destruct (IH (<[dir := <[name idx0 := ImageFile kf0]> entries]> m)
                 (<[name idx0 := ImageFile kf0]> entries))
      as (entries' & Hlookup & Hwritten & Hother);
      [by rewrite lookup_insert_eq|done|].
    exists entries'. split; [done|]. split.
    + intros [|k] kf idx Hk; cbn in Hk.
      * injection Hk as <- <-. rewrite Hother by done.
        apply lookup_insert_eq.
      * by eapply Hwritten.
    + intros n Hn. cbn in Hn. apply not_elem_of_cons in Hn as [Hne Hn].
      rewrite Hother by done. by apply lookup_insert_ne.
Qed.

(** X7: when no file stands in the way of the output directory, with
    a positive frame rate and distinct non-negative indices, after
    [save_keyframes] the file named after each saved index holds
    the frame saved under it, and every file that was not written holds
    what it held before: nothing is deleted and no other file is
    overwritten. *)
Theorem save_keyframes_files c (keyframes : list Frame) (indices : list Z)
    (dir : Dir) :
  unobstructed dir (fs (world c)) →
  0 < fps (self c) →
  NoDup indices →
  Forall (λ i, 0 ≤ i) indices →
  ∃ c' : Ctx Frame,
    save_keyframes keyframes indices dir c = (Ok tt, c') ∧
    (∀ (k : nat) kf idx,
       keyframes !! k = Some kf → indices !! k = Some idx →
       lookup_file (dir, archive_name (fps (self c)) idx) (world c')
         = Some (ImageFile kf)) ∧
    (∀ p : Path,
       (∀ (k : nat) idx, k < length keyframes → indices !! k = Some idx →
                     p ≠ (dir, archive_name (fps (self c)) idx))%nat →
       lookup_file p (world c') = lookup_file p (world c)).
Proof.
  intros _ Hrate Hnd Hpos.
  destruct (save_keyframes_run keyframes indices dir c)
    as (w0 & c' & Hens & Hsave & _ & _ & Hfs); [lia|].
  destruct (ensure_dir_lookup_file dir (world c) w0 Hens) as [[e He] Hsame].
  set (name := archive_name (fps (self c))) in *.
  destruct (foldl_write_lookup dir name (zip keyframes indices) (fs w0) e He)
    as (entries' & Hdir & Hwritten & Hother).
  { rewrite snd_zip_take. apply NoDup_archive_names; [done| |].
    - by apply Forall_take.
    - eapply sublist_NoDup; [done|apply sublist_take]. }
  destruct (foldl_write_file dir name (zip keyframes indices) (fs w0) e He)
    as (entries2 & Hdir2 & _ & Helse).
  rewrite <- Hfs in Hdir, Helse.
  exists c'. split; [done|]. split.
  - intros k kf idx Hkf Hidx. unfold lookup_file. cbn [fst snd].
    rewrite Hdir. cbn. apply (Hwritten k).
    rewrite lookup_zip_with, Hkf. cbn. by rewrite Hidx.
  - intros [d n] Hp. rewrite <- Hsame. unfold lookup_file. cbn [fst snd].
    destruct (decide (d = dir)) as [->|Hne]; [|by rewrite Helse].
    rewrite Hdir, He. cbn. apply Hother.
    intros Hin. apply list_elem_of_fmap in Hin as (idx & -> & Hin).
    rewrite snd_zip_take in Hin.
    apply list_elem_of_lookup in Hin as [k Hk].
    apply lookup_take_Some in Hk as [Hk Hlt].
    by apply (Hp k idx).
Qed.

(** ** What a returned selection implies *)

Lemma map_result_length {A B} (f : A → Result B) (l : list A) (l' : list B) :
  map_result f l = Ok l' → length l' = length l.
Proof.
  revert l'. induction l as [|x l IH]; intros l' Hrun; cbn in Hrun.
  - by injection Hrun as <-.
  - destruct (f x) as [y|]; [|done]. cbn in Hrun.
    destruct (map_result f l) as [ys|]; [|done]. cbn in Hrun.
    injection Hrun as <-. cbn. by rewrite (IH ys).
Qed.

Lemma center_index_Ok (shot : list Frame) (ci : Z) :
  center_index shot = Ok ci →
  shot ≠ [] ∧ 0 ≤ ci < Z.of_nat (length shot).
Proof.
  unfold center_index. intros Hrun.
  destruct (map_result cvtColor_gray shot) as [features|] eqn:Hf; [|done].
  apply map_result_length in Hf. cbn in Hrun.
  destruct (kmeans1_center features) as [center|] eqn:Hk; [|done].
  cbn in Hrun. injection Hrun as <-.
  assert (features ≠ []) as Hne by (by destruct features).
  split; [intros ->; by destruct features|].
  destruct (argmin_spec (sq_dist center <$> features)) as (d & Hrange & _);
    [by destruct features|].
  by rewrite length_fmap, Hf in Hrange.
Qed.

Lemma extract_loop_Ok frames (shot_boundaries turns : list Z)
    (kfs0 kfs : list Frame) (idxs0 idxs : list Z) :
  Forall (λ i, 0 ≤ i) turns →
  extract_loop frames shot_boundaries turns kfs0 idxs0 = Ok (kfs, idxs) →
  ∃ sel : list (Frame * Z),
    kfs = kfs0 ++ sel.*1 ∧ idxs = idxs0 ++ sel.*2 ∧
    Forall2
      (λ i p, ∃ start stop ci,
         shot_span shot_boundaries (Z.to_nat i) = Some (start, stop) ∧
         Py.slice frames start stop ≠ [] ∧
         0 ≤ ci < Z.of_nat (length (Py.slice frames start stop)) ∧
         Py.slice frames start stop !! Z.to_nat ci = Some p.1 ∧
         p.2 = start + ci)
      turns sel.
Proof.
  intros Hturns. revert kfs0 idxs0.
  induction Hturns as [|i turns Hi _ IH]; intros kfs0 idxs0 Hrun.
  - cbn in Hrun. injection Hrun as <- <-. exists [].
    by rewrite !app_nil_r.
  - cbn [extract_loop] in Hrun.
    destruct (if 0 <? i then _ else _) as [start|] eqn:Hstart; [|done].
    unfold mbind at 1, Result_bind at 1 in Hrun.
    rewrite index_nonneg in Hrun by done.
    destruct (shot_boundaries !! Z.to_nat i) as [stop|] eqn:Hstop; [|done].
    cbn [of_option] in Hrun. unfold mbind at 1, Result_bind at 1 in Hrun.
    destruct (center_index (Py.slice frames start stop)) as [ci|] eqn:Hci;
      [|done].
    unfold mbind at 1, Result_bind at 1 in Hrun.
    destruct (center_index_Ok _ _ Hci) as [Hne Hrange].
    rewrite index_nonneg in Hrun by lia.
    destruct (Py.slice frames start stop !! Z.to_nat ci) as [kf|] eqn:Hkf;
      [|done].
    cbn [of_option] in Hrun. unfold mbind at 1, Result_bind at 1 in Hrun.
    destruct (IH _ _ Hrun) as (sel & -> & -> & Hsel).
    exists ((kf, start + ci) :: sel). cbn.
    rewrite <- !app_assoc. split; [done|]. split; [done|].
    constructor; [|done]. exists start, stop, ci. cbn.
    split; [|done]. unfold shot_span. rewrite Hstop. cbn. f_equal. f_equal.
    destruct (0 <? i) eqn:Hpos.
    + rewrite index_nonneg in Hstart by lia.
      destruct (Z.to_nat i) as [|n] eqn:Hn; [lia|].
      replace (Z.to_nat (i - 1)) with n in Hstart by lia.
      destruct (shot_boundaries !! n); [|done]. by injection Hstart as ->.
    + injection Hstart as <-. by replace (Z.to_nat i) with 0%nat by lia.
Qed.

(** X8: whenever [extract_keyframes] returns, it returns one frame and
    one index per boundary, and the pair for boundary [i] comes from a
    non-empty span [frames[start:stop]]: the frame is the one at some
    position [ci] of the span and the index is [start + ci].  So a
    boundary list with an empty span (a repeated or decreasing boundary,
    a first boundary 0) never yields a result. *)
Theorem extract_keyframes_inversion frames (shot_boundaries : list Z)
    (keyframes : list Frame) (keyframe_indices : list Z) :
  extract_keyframes frames shot_boundaries = Ok (keyframes, keyframe_indices) →
  length keyframes = length shot_boundaries ∧
  length keyframe_indices = length shot_boundaries ∧
  ∀ (i : nat) keyframe idx,
    keyframes !! i = Some keyframe →
    keyframe_indices !! i = Some idx →
    ∃ start stop ci,
      shot_span shot_boundaries i = Some (start, stop) ∧
      Py.slice frames start stop ≠ [] ∧
      0 ≤ ci < Z.of_nat (length (Py.slice frames start stop)) ∧
      Py.slice frames start stop !! Z.to_nat ci = Some keyframe ∧
      idx = start + ci.
Proof.
  unfold extract_keyframes, Py.range. rewrite Z.sub_0_r. intros Hrun.
  apply extract_loop_Ok in Hrun as (sel & -> & -> & Hsel);
    [|apply Forall_seqZ; lia].
  apply Forall2_length in Hsel as Hlen. rewrite length_seqZ in Hlen.
  cbn. rewrite !length_fmap. split; [lia|]. split; [lia|].
  intros i kf idx Hkf Hidx.
  rewrite list_lookup_fmap in Hkf. rewrite list_lookup_fmap in Hidx.
  destruct (sel !! i) as [[kf' idx']|] eqn:Hi; [|done].
  cbn in Hkf, Hidx. injection Hkf as ->. injection Hidx as ->.
  apply lookup_lt_Some in Hi as Hlt.
  assert (seqZ 0 (Z.of_nat (length shot_boundaries)) !! i = Some (Z.of_nat i))
    as Hturn by (rewrite lookup_seqZ_lt by lia; f_equal; lia).
  pose proof (Forall2_lookup_lr _ _ _ _ _ _ Hsel Hturn Hi) as Hgoal.
  cbn beta in Hgoal. by rewrite Nat2Z.id in Hgoal.
Qed.

(** ** The retry policy of the directory removal *)






(** ** What the try block leaves to the cleanup *)

Lemma preserves_bind {S X A B} (proj : S → X) (m : M S A) (f : A → M S B) :
  preserves proj m → (∀ a, preserves proj (f a)) → preserves proj (m ≫= f).
Proof.
  intros Hm Hf s r s' Hrun. unfold mbind, M_bind in Hrun.
  destruct (m s) as [[a|e] s1] eqn:Hms.
  - rewrite (Hf a s1 r s' Hrun). by eapply Hm.
  - injection Hrun as <- <-. by eapply Hm.
Qed.

Lemma preserves_pure {S X A} (proj : S → X) (r : Result A) :
  preserves proj (λ s, (r, s)).
Proof. intros s r' s' Hrun. by injection Hrun as <- <-. Qed.

Lemma preserves_gets {S X A} (proj : S → X) (f : S → A) :
  preserves proj (gets f).
Proof. intros s r' s' Hrun. by injection Hrun as <- <-. Qed.

Lemma preserves_modify {S X} (proj : S → X) (f : S → S) :
  (∀ s, proj (f s) = proj s) → preserves proj (modify f).
Proof. intros Hf s r' s' Hrun. by injection Hrun as <- <-. Qed.

Lemma preserves_try_except_reraise {S X A} (proj : S → X) (body : M S A)
    (handler : M S unit) :
  preserves proj body → preserves proj handler →
  preserves proj (try_except_reraise body handler).
Proof.
  intros Hb Hh s r s' Hrun. unfold try_except_reraise in Hrun.
  destruct (body s) as [[a|e] s1] eqn:Hbs.
  - injection Hrun as <- <-. by eapply Hb.
  - destruct (handler s1) as [[[]|e'] s2] eqn:Hhs;
      injection Hrun as <- <-; rewrite (Hh _ _ _ Hhs); by eapply Hb.
Qed.

Lemma preserves_for_each {S X A} (proj : S → X) (xs : list A)
    (body : A → M S unit) :
  (∀ x, preserves proj (body x)) → preserves proj (for_each xs body).
Proof.
  intros Hbody. induction xs as [|x xs IH]; [apply preserves_pure|].
  cbn [for_each]. by apply preserves_bind.
Qed.

Lemma preserves_in_world {A} (m : M (World Frame) A) :
  preserves faults m →
  preserves (@ctx_faults Frame) (in_world m).
Proof.
  intros Hm c r c' Hrun. unfold in_world in Hrun.
  destruct (m (world c)) as [r1 w1] eqn:Hmw.
  injection Hrun as <- <-. by eapply Hm.
Qed.

Lemma preserves_on_world {A} (m : M (World Frame) A) :
  preserves faults m →
  preserves (@locals_faults Frame) (on_world m).
Proof.
  intros Hm p r p' Hrun. unfold on_world in Hrun.
  destruct (m (p_world p)) as [r1 w1] eqn:Hmw.
  injection Hrun as <- <-. by eapply Hm.
Qed.

Lemma preserves_on_self {A} (m : M (Ctx Frame) A) :
  preserves (@ctx_faults Frame) m →
  preserves (@locals_faults Frame) (on_self m).
Proof.
  intros Hm p r p' Hrun. unfold on_self in Hrun.
  destruct (m _) as [r1 c1] eqn:Hmc.
  injection Hrun as <- <-. by apply Hm in Hmc.
Qed.

Lemma preserves_on_mini {A} (m : M (Ctx Frame) A) :
  preserves (@ctx_faults Frame) m →
  preserves (@locals_faults Frame) (on_mini m).
Proof.
  intros Hm p r p' Hrun. unfold on_mini in Hrun.
  destruct (mini_processor p); [|by injection Hrun as <- <-].
  destruct (m _) as [r1 c1] eqn:Hmc.
  injection Hrun as <- <-. by apply Hm in Hmc.
Qed.

(** The world-level operations outside the cleanup consume no failure. *)
Lemma preserves_emit (e : Event) : preserves faults (emit e : M (World Frame) unit).
Proof. by apply preserves_modify. Qed.

Lemma preserves_makedirs (d : Dir) :
  preserves faults (makedirs d : M (World Frame) unit).
Proof.
  unfold makedirs. apply preserves_bind; [by apply preserves_modify|].
  intros _. apply preserves_emit.
Qed.

Lemma preserves_ensure_dir (d : Dir) :
  preserves faults (ensure_dir d : M (World Frame) unit).
Proof.
  unfold ensure_dir, path_exists_dir.
  apply preserves_bind; [apply preserves_gets|].
  intros []; [apply preserves_pure|apply preserves_makedirs].
Qed.

Lemma preserves_imwrite (p : Path) (frame : Frame) :
  preserves faults (imwrite p frame).
Proof.
  unfold imwrite. apply preserves_bind; [by apply preserves_modify|].
  intros _. apply preserves_emit.
Qed.

Lemma preserves_extract_numbers_from_folder (d : Dir) :
  preserves faults (extract_numbers_from_folder d : M (World Frame) _).
Proof.
  unfold extract_numbers_from_folder.
  apply preserves_bind; [|intros ?; apply preserves_pure].
  intros w r w' Hrun. unfold listdir in Hrun.
  destruct (fs w !! d); by injection Hrun as <- <-.
Qed.

Lemma preserves_run_ffmpeg (input output : Path) (width : Z) :
  preserves faults (run_ffmpeg input output width).
Proof.
  unfold run_ffmpeg. intros w r w' Hrun. unfold_monad in Hrun.
  destruct (lookup_file input w) as [[f|v]|];
    [by injection Hrun as <- <-| |by injection Hrun as <- <-].
  destruct (ffmpeg_scale v width); by injection Hrun as <- <-.
Qed.

Lemma preserves_init (path : Path) :
  preserves faults (init path : M (World Frame) _).
Proof.
  unfold init, os_path_exists. intros w r w' Hrun. unfold_monad in Hrun.
  destruct (_ || _); [|by injection Hrun as <- <-].
  destruct (lookup_file path w) as [[f|v]|]; by injection Hrun as <- <-.
Qed.

(** And so do the methods of a processor. *)
Lemma preserves_log (msg : LogMsg) : preserves (@ctx_faults Frame) (log msg).
Proof. apply preserves_in_world, preserves_emit. Qed.

Lemma preserves_cap_set (pos : Z) : preserves (@ctx_faults Frame) (cap_set pos).
Proof. intros c r c' Hrun. by injection Hrun as <- <-. Qed.

Lemma preserves_cap_read : preserves (@ctx_faults Frame) cap_read.
Proof.
  intros c r c' Hrun. unfold cap_read in Hrun.
  destruct (frame_at _); by injection Hrun as <- <-.
Qed.

Lemma preserves_read_frames (fuel : nat) :
  preserves (@ctx_faults Frame) (read_frames fuel).
Proof.
  induction fuel as [|fuel IH]; [apply preserves_pure|].
  cbn [read_frames]. apply preserves_bind; [apply preserves_gets|].
  intros []; [|apply preserves_pure].
  apply preserves_bind; [apply preserves_cap_read|].
  intros [frame|]; [|apply preserves_pure].
  apply preserves_bind; [done|]. intros ?. apply preserves_pure.
Qed.

Lemma preserves_preprocess_video : preserves (@ctx_faults Frame) preprocess_video.
Proof.
  unfold preprocess_video. apply preserves_bind; [apply preserves_cap_set|].
  intros _. apply preserves_bind; [apply preserves_gets|].
  intros ?. apply preserves_read_frames.
Qed.

Lemma preserves_save_keyframes (keyframes : list Frame) (indices : list Z)
    (dir : Dir) :
  preserves (@ctx_faults Frame) (save_keyframes keyframes indices dir).
Proof.
  unfold save_keyframes.
  apply preserves_bind; [apply preserves_in_world, preserves_ensure_dir|].
  intros _. apply preserves_for_each. intros [kf idx]. unfold save_one.
  apply preserves_bind; [apply preserves_gets|]. intros rate.
  destruct (rate =? 0); [apply preserves_pure|].
  apply preserves_in_world, preserves_imwrite.
Qed.

Lemma preserves_extract_frames_loop (fns : list Z) (dir : Dir)
    (seen : gset Z) :
  preserves (@ctx_faults Frame) (extract_frames_loop fns dir seen).
Proof.
  revert seen. induction fns as [|fn fns IH]; intros seen;
    [apply preserves_pure|].
  cbn [extract_frames_loop]. apply preserves_bind; [apply preserves_gets|].
  intros rate. destruct (rate =? 0); [apply preserves_pure|].
  case_bool_decide; [done|].
  apply preserves_bind; [apply preserves_cap_set|]. intros _.
  apply preserves_bind; [apply preserves_cap_read|]. intros [frame|].
  - apply preserves_bind; [apply preserves_in_world, preserves_imwrite|done].
  - apply preserves_bind; [apply preserves_log|done].
Qed.

Lemma preserves_extract_frames_by_numbers (fns : list Z) (dir : Dir) :
  preserves (@ctx_faults Frame) (extract_frames_by_numbers fns dir).
Proof.
  unfold extract_frames_by_numbers.
  destruct fns as [|fn fns]; [apply preserves_pure|].
  apply preserves_bind; [apply preserves_gets|]. intros total.
  destruct (existsb _ _); [apply preserves_pure|].
  apply preserves_bind; [apply preserves_in_world, preserves_ensure_dir|].
  intros _. apply preserves_bind; [apply preserves_extract_frames_loop|].
  intros ?. apply preserves_log.
Qed.

Lemma preserves_process_video (dir : Dir) (skip_seconds : Q) (threshold : Z) :
  preserves (@ctx_faults Frame) (process_video dir skip_seconds threshold).
Proof.
  unfold process_video. apply preserves_bind; [apply preserves_gets|].
  intros rate. apply preserves_bind; [apply preserves_log|]. intros _.
  apply preserves_bind; [apply preserves_preprocess_video|]. intros frames.
  destruct (Py.slice_from frames _); [apply preserves_pure|].
  apply preserves_bind; [apply preserves_log|]. intros _.
  apply preserves_bind; [apply preserves_pure|]. intros bs.
  apply preserves_bind; [apply preserves_log|]. intros _.
  apply preserves_bind; [apply preserves_pure|]. intros sel.
  apply preserves_save_keyframes.
Qed.
Lemma preserves_plog (msg : LogMsg) :
  preserves (@locals_faults Frame) (plog msg).
Proof. apply preserves_on_world, preserves_emit. Qed.

Lemma preserves_low_res_pass (temp_dir : Dir) (skip_seconds : Q)
    (threshold compressed_width : Z) :
  preserves (@locals_faults Frame)
    (low_res_pass temp_dir skip_seconds threshold compressed_width).
Proof.
  unfold low_res_pass.
  apply preserves_bind; [apply preserves_gets|]. intros me.
  apply preserves_bind; [by apply preserves_modify|]. intros _.
  apply preserves_bind; [apply preserves_plog|]. intros _.
  apply preserves_bind.
  { apply preserves_try_except_reraise; [|apply preserves_plog].
    apply preserves_on_world, preserves_run_ffmpeg. }
  intros _. apply preserves_bind; [apply preserves_plog|]. intros _.
  apply preserves_bind; [apply preserves_on_world, preserves_init|].
  intros mp. apply preserves_bind; [by apply preserves_modify|]. intros _.
  apply preserves_on_mini, preserves_process_video.
Qed.

Lemma preserves_high_res_pass (temp_dir hd_frames_dir : Dir) :
  preserves (@locals_faults Frame) (high_res_pass temp_dir hd_frames_dir).
Proof.
  unfold high_res_pass.
  apply preserves_bind; [apply preserves_plog|]. intros _.
  apply preserves_bind;
    [apply preserves_on_world, preserves_extract_numbers_from_folder|].
  intros [|n numbers]; [apply preserves_pure|].
  apply preserves_bind; [|intros _; apply preserves_plog].
  apply preserves_on_self, preserves_extract_frames_by_numbers.
Qed.

Lemma preserves_pipeline_try (output_dir : Dir) (skip_seconds : Q)
    (threshold compressed_width : Z) :
  preserves (@locals_faults Frame)
    (pipeline_try output_dir skip_seconds threshold compressed_width).
Proof.
  unfold pipeline_try.
  apply preserves_try_except_reraise; [|apply preserves_plog].
  apply preserves_bind; [apply preserves_low_res_pass|].
  intros _. apply preserves_high_res_pass.
Qed.

(** X10: however the [try] statement of [process_video_pipeline] ends,
    the result is that of the [try] block, with its exception if it
    raised one; the decode context of [self] is released afterwards and
    the local processor is dropped; and unless the temporary files are
    to be kept, when the environment makes no deletion fail, the
    temporary directory does not exist afterwards. *)
Theorem pipeline_try_finally_leaves (output_dir : Dir) (skip_seconds : Q)
    (threshold compressed_width : Z) (keep_temp : bool) (p : Locals Frame) :
  ∃ r (q p' : Locals Frame),
    pipeline_try output_dir skip_seconds threshold compressed_width p
      = (r, q) ∧
    try_finally
      (pipeline_try output_dir skip_seconds threshold compressed_width)
      (pipeline_finally output_dir keep_temp) p = (r, p') ∧
    cap_opened (cap (p_self p')) = false ∧
    mini_processor p' = None ∧
    (keep_temp = false → faults (p_world p) = [] →
     fs (p_world p') !! (output_dir ++ ["temp"]) = None).
Proof.
  unfold try_finally.
  destruct (pipeline_try output_dir skip_seconds threshold compressed_width p)
    as [r q] eqn:Htry.
  apply preserves_pipeline_try in Htry as Hfaults.
  destruct (pipeline_finally_run output_dir keep_temp q)
    as (q' & evs & Hfinal & Hclosed & Hmini & _ & _ & _ & _ & _ & Hclean).
  rewrite Hfinal. exists r, q, q'.
  split; [done|]. split; [done|]. split; [done|]. split; [done|].
  intros Hkeep Hnone. apply Hclean; [done|].
  unfold locals_faults in Hfaults. by rewrite Hfaults.
Qed.

(** ** Names the scan does not recover *)

Lemma lacks_app (x : ascii) (a b : string) :
  lacks x (a +:+ b) = lacks x a && lacks x b.
Proof.
  induction a as [|y a IH]; [done|]. rewrite append_cons. cbn.
  rewrite IH. by rewrite andb_assoc.
Qed.

Lemma only_digits_lacks_k (s : string) :
  only_digits s = true → lacks "k" s = true.
Proof.
  induction s as [|y s IH]; [done|]. cbn.
  intros [Hy Hs]%andb_true_iff. rewrite (IH Hs), andb_true_r.
  destruct y as [[] [] [] [] [] [] [] []]; done.
Qed.

Lemma format_d_lacks_k (width : nat) (z : Z) :
  lacks "k" (Py.format_d width z) = true.
Proof.
  unfold Py.format_d.
  destruct (digits_of_N_digits (Z.to_N (Z.abs z))) as [Hd _].
  destruct (z <? 0); cbn; rewrite lacks_app;
    by rewrite !only_digits_lacks_k by (done || apply only_digits_zeros).
Qed.

Lemma time_str_lacks_k (t : Z) : lacks "k" (time_str t) = true.
Proof. unfold time_str. by rewrite !lacks_app, !format_d_lacks_k. Qed.

(** The pattern begins with the letter k: it is not found in a string
    without one. *)
Lemma search_lacks_k (s : string) :
  lacks "k" s = true → Re.search keyframe_pattern s = None.
Proof.
  induction s as [|y s IH]; [done|]. cbn [lacks].
  intros [Hy Hs]%andb_true_iff. cbn [Re.search].
  assert (Re.match_items keyframe_pattern (String y s) = None) as ->.
  { unfold keyframe_pattern. cbn -[Ascii.eqb].
    rewrite Ascii.eqb_sym. by destruct (Ascii.eqb y "k"). }
  by apply IH.
Qed.

(** X11: a negative index is written with a minus sign after
    [keyframe_], and the scan does not recover a number from such a
    name, whatever the frame rate. *)
Theorem negative_index_not_recovered (rate idx : Z) :
  idx < 0 → number_of_name (archive_name rate idx) = None.
Proof.
  intros Hneg. unfold number_of_name, archive_name, keyframe_name.
  set (time := time_str (idx / rate)).
  assert (∃ rest, Py.format_d 6 idx = String "-" rest ∧ lacks "k" rest = true)
    as (rest & Hfmt & Hrest).
  { pose proof (format_d_lacks_k 6 idx) as Hk. unfold Py.format_d in *.
    replace (idx <? 0) with true in * by lia. eexists. split; [done|].
    cbn in Hk. exact Hk. }
  rewrite Hfmt. rewrite !append_cons, !append_nil_l.
  cbn [Re.search].
  assert (Re.match_items keyframe_pattern
            (String "k" (String "e" (String "y" (String "f" (String "r"
              (String "a" (String "m" (String "e" (String "_"
                (String "-" (rest +:+ String "_" (time +:+ ".jpg"))))))))))))
          = None) as ->.
  { unfold keyframe_pattern. cbn -[Re.digits1].
    by apply digits1_no_digit. }
  rewrite search_lacks_k; [done|].
  cbn. rewrite lacks_app, Hrest. cbn. rewrite lacks_app.
  unfold time. by rewrite time_str_lacks_k.
Qed.

(** ** The pipeline: set-up and compression *)






(** The file system after the five [os.makedirs] calls. *)
Lemma pipeline_setup_state (output_dir : Dir) (p : Locals Frame) :
  (pipeline_setup output_dir p).2
  = {| p_self := p_self p;
       p_world :=
         {| fs :=
              create_dirs (ancestors_and_self output_dir)
                (create_dirs (ancestors_and_self ((output_dir ++ ["temp"]) ++ ["mini_frames"]))
                   (create_dirs (ancestors_and_self ((output_dir ++ ["temp"]) ++ ["compressed"]))
                      (create_dirs (ancestors_and_self (output_dir ++ ["temp"]))
                         (create_dirs (ancestors_and_self output_dir)
                            (fs (p_world p))))));
            trace :=
              trace (p_world p)
              ++ [EvMakedirs output_dir; EvMakedirs (output_dir ++ ["temp"]);
                  EvMakedirs ((output_dir ++ ["temp"]) ++ ["compressed"]);
                  EvMakedirs ((output_dir ++ ["temp"]) ++ ["mini_frames"]);
                  EvMakedirs output_dir];
            faults := faults (p_world p) |};
       mini_processor := None;
       compressed_video := None |}.
Proof.
  unfold pipeline_setup, makedirs, set_mini_processor, set_compressed_video,
    on_world. unfold_monad. cbn. unfold with_world, add_event. cbn.
  by rewrite <- !app_assoc.
Qed.

Lemma create_dirs_files (ds : list Dir) (m : FS Frame) (path : Path) :
  create_dirs ds m !! path.1 ≫= (λ entries, entries !! path.2)
    = m !! path.1 ≫= (λ entries, entries !! path.2).
Proof.
  rewrite create_dirs_lookup. destruct (m !! path.1); [done|].
  destruct (decide (path.1 ∈ ds)); [|done]. cbn. apply lookup_empty.
Qed.

(** The set-up creates directories only: the files are those of before. *)
Lemma pipeline_setup_lookup_file (output_dir : Dir) (p : Locals Frame)
    (path : Path) :
  lookup_file path (p_world (pipeline_setup output_dir p).2)
    = lookup_file path (p_world p).
Proof.
  rewrite pipeline_setup_state. unfold lookup_file. cbn [fs p_world].
  by rewrite !create_dirs_files.
Qed.

(** The low-resolution pass when the compression fails. *)
Lemma low_res_pass_compression_failure (temp_dir : Dir) (skip_seconds : Q)
    (threshold compressed_width : Z) (p1 : Locals Frame) :
  (∀ v, lookup_file (video_path (p_self p1)) (p_world p1) = Some (VideoFile v) →
        ffmpeg_scale v compressed_width = None) →
  low_res_pass temp_dir skip_seconds threshold compressed_width p1
  = (Err CalledProcessError,
     {| p_self := p_self p1;
        p_world :=
          add_event (EvLog ErrorFfmpeg)
            (add_event
               (EvFfmpeg (video_path (p_self p1))
                  (temp_dir ++ ["compressed"],
                   splitext_stem (video_path (p_self p1)).2
                     +:+ "_compressed.mp4") false)
               (add_event (EvLog InfoStep1) (p_world p1)));
        mini_processor := mini_processor p1;
        compressed_video :=
          Some (temp_dir ++ ["compressed"],
                splitext_stem (video_path (p_self p1)).2
                  +:+ "_compressed.mp4") |}).
Proof.
  intros Hfail.
  unfold low_res_pass, set_compressed_video, plog, on_world, run_ffmpeg,
    try_except_reraise.
  unfold_monad. cbn.
  change (lookup_file (video_path (p_self p1))
            (add_event (EvLog InfoStep1) (p_world p1)))
    with (lookup_file (video_path (p_self p1)) (p_world p1)).
  destruct (lookup_file (video_path (p_self p1)) (p_world p1))
    as [[f|v]|]; [|rewrite (Hfail v eq_refl)|]; done.
Qed.

(** X12: when no file stands in the way of the directories to create
    and the compression fails (the input is not a video file, or the
    scaling fails), [process_video_pipeline] raises
    [CalledProcessError] after the five directory creations, one failed
    compression and the two error log lines, followed by clean-up events
    only: no processor is opened on the compressed copy, nothing is
    decoded and no image is written. *)
Theorem pipeline_compression_failure c (output_dir : Dir) (skip_seconds : Q)
    (threshold compressed_width : Z) (keep_temp : bool) :
  unobstructed ((output_dir ++ ["temp"]) ++ ["compressed"]) (fs (world c)) →
  unobstructed ((output_dir ++ ["temp"]) ++ ["mini_frames"]) (fs (world c)) →
  (∀ v, lookup_file (video_path (self c)) (world c) = Some (VideoFile v) →
        ffmpeg_scale v compressed_width = None) →
  ∃ c' evs,
    process_video_pipeline output_dir skip_seconds threshold
      compressed_width keep_temp c = (Err CalledProcessError, c') ∧
    trace (world c')
      = trace (world c)
        ++ [EvMakedirs output_dir; EvMakedirs (output_dir ++ ["temp"]);
            EvMakedirs ((output_dir ++ ["temp"]) ++ ["compressed"]);
            EvMakedirs ((output_dir ++ ["temp"]) ++ ["mini_frames"]);
            EvMakedirs output_dir;
            EvLog InfoStep1;
            EvFfmpeg (video_path (self c))
              ((output_dir ++ ["temp"]) ++ ["compressed"],
               splitext_stem (video_path (self c)).2 +:+ "_compressed.mp4")
              false;
            EvLog ErrorFfmpeg; EvLog ErrorFailed]
        ++ evs ∧
    Forall (λ e, is_cleanup_event e = true) evs.
Proof.
  intros _ _ Hfail. unfold process_video_pipeline.
  set (p := {| p_self := self c; p_world := world c;
               mini_processor := None; compressed_video := None |}).
  set (p1 := (pipeline_setup output_dir p).2).
  assert (p_self p1 = self c) as Hself
    by (unfold p1; by rewrite pipeline_setup_state).
  pose proof (low_res_pass_compression_failure (output_dir ++ ["temp"])
                skip_seconds threshold compressed_width p1) as Hlow.
  rewrite Hself in Hlow.
  unfold p1 at 1 in Hlow. rewrite pipeline_setup_lookup_file in Hlow.
  specialize (Hlow Hfail).
  erewrite run_pipeline_failure; last first.
  { fold p1. unfold mbind at 1. unfold M_bind at 1. by rewrite Hlow. }
  match goal with
  | |- context [pipeline_finally output_dir keep_temp ?q] =>
      destruct (pipeline_finally_run output_dir keep_temp q)
        as (q' & evs & Hfinal & _ & _ & Htrace & Hevs & _)
  end.
  rewrite Hfinal. cbn [snd].
  eexists _, evs. split; [reflexivity|]. split; [|done].
  cbn [world]. rewrite Htrace. unfold plog, on_world. unfold_monad.
  cbn [snd p_world with_world trace add_event].
  unfold p1. rewrite pipeline_setup_state. cbn [p_world trace].
  by rewrite <- !app_assoc.
Qed.

(** ** The pipeline: the run without failure *)











End Properties.

(** * Concrete runs *)

(** Three frames without a cut: no boundary, and no keyframe either. *)
Lemma uniform_sequence_yields_no_keyframe_witness :
  detect_shot_boundaries (v_frames Example.still_video) 30 = Ok [] ∧
  extract_keyframes (v_frames Example.still_video) [] = Ok ([], []).
Proof.
  apply (uniform_sequence_yields_no_keyframe 4).
  - split; [lia|repeat constructor].
  - discriminate.
  - intros i Hi (prev & curr & Hp & Hc & Hlt). cbn in Hi.
    assert (i = 1 ∨ i = 2) as [-> | ->] by lia;
      cbn in Hp, Hc; injection Hp as <-; injection Hc as <-;
      vm_compute in Hlt; discriminate.
Defined.

(** Frame 7 of a six-frame video is rejected in the entry state. *)
Lemma extract_frames_by_numbers_rejects_invalid_witness :
  extract_frames_by_numbers [0; 7] ["hd"] (Example.ctx_with Example.cut_video)
    = (Err InvalidIndex, Example.ctx_with Example.cut_video).
Proof.
  apply extract_frames_by_numbers_rejects_invalid.
  exists 7. split; [by repeat constructor|cbn; lia].
Defined.

(** The six frames of the video with one cut have one shape. *)
Lemma detect_shot_boundaries_spec_witness :
  same_shape 4 (v_frames Example.cut_video) ∧
  ∃ shot_boundaries,
    detect_shot_boundaries (v_frames Example.cut_video) 30
      = Ok shot_boundaries ∧
    StronglySorted Z.lt shot_boundaries.
Proof.
  assert (same_shape 4 (v_frames Example.cut_video)) as Hshape
    by (split; [lia|repeat constructor]).
  split; [done|].
  destruct (detect_shot_boundaries_spec 4 _ 30 Hshape)
    as (bs & Hbs & _ & Hsorted & _).
  by exists bs.
Defined.

(** Skipping three seconds of a three-second video leaves no frame. *)
Lemma process_video_skip_beyond_end_witness :
  (process_video ["out"] 3 30 (Example.ctx_with Example.cut_video)).1
    = Err (ValueError NoFramesLeft).
Proof.
  edestruct (process_video_skip_beyond_end
               (Example.ctx_with Example.cut_video) ["out"] 3 30) as [-> _].
  - vm_compute. reflexivity.
  - vm_compute. discriminate.
  - reflexivity.
Defined.







(** A video without a cut leaves the mini-frames directory empty, and the
    pipeline raises. *)
Lemma pipeline_failure_handling_witness :
  (process_video_pipeline ["out"] 0 30 320 false
     (Example.ctx_with Example.still_video)).1 = Err NoKeyframesFound.
Proof.
  set (p := {| p_self := self (Example.ctx_with Example.still_video);
               p_world := world (Example.ctx_with Example.still_video);
               mini_processor := None;
               compressed_video := None |}).
  pose proof (pipeline_failure_handling ["out"] 0 30 320 false p) as Hthm.
  cbv zeta in Hthm. destruct Hthm as [Hempty _].
  edestruct Hempty as [Hrun _].
  - vm_compute. reflexivity.
  - vm_compute. reflexivity.
  - unfold process_video_pipeline. fold p. by rewrite Hrun.
Defined.

(** Reading the video with one cut twice. *)
Lemma preprocess_video_twice_witness :
  ∃ c1 c2,
    preprocess_video (Example.ctx_with Example.cut_video)
      = (Ok (v_frames Example.cut_video), c1) ∧
    preprocess_video c1 = (Ok (v_frames Example.cut_video), c2).
Proof.
  apply (preprocess_video_twice (Example.ctx_with Example.cut_video)).
  reflexivity.
Defined.

(** Opening the demo file and reading it. *)
Lemma init_then_read_witness :
  ∃ vp c',
    init Example.demo_path (Example.world_with Example.cut_video)
      = (Ok vp, Example.world_with Example.cut_video) ∧
    preprocess_video
      {| self := vp; world := Example.world_with Example.cut_video |}
      = (Ok (v_frames Example.cut_video), c').
Proof.
  destruct (init_then_read Example.demo_path
              (Example.world_with Example.cut_video)) as [Hvideo _].
  destruct (Hvideo Example.cut_video) as (vp & c' & Hinit & _ & _ & _ & Hread).
  - reflexivity.
  - by exists vp, c'.
Defined.

(** Processing on a released context. *)
Lemma process_video_after_release_witness :
  ∃ c', process_video ["out"] 0 30 (Example.released_ctx Example.cut_video)
          = (Err (ValueError NoFramesLeft), c') ∧
        fs (world c') = fs (Example.world_with Example.cut_video).
Proof.
  destruct (process_video_after_release (Example.released_ctx Example.cut_video)
              ["out"] 0 30) as (c' & Hrun & _ & Hfs & _).
  - reflexivity.
  - by exists c'.
Defined.


(** Ascending numbers at two frames per second: of 2 and 3, frame 2 is
    archived. *)
Lemma extract_frames_by_numbers_keeps_smallest_witness :
  ∃ c' archived,
    extract_frames_by_numbers [0; 1; 2; 3; 5] ["hd"]
      (Example.ctx_with Example.cut_video) = (Ok tt, c') ∧
    ∃ least, filter (λ x, x / 2 = 3 / 2) archived = [least] ∧ least ≤ 2.
Proof.
  destruct (extract_frames_by_numbers_keeps_smallest
              (Example.ctx_with Example.cut_video) [0; 1; 2; 3; 5] ["hd"])
    as (c' & archived & Hrun & _ & Hleast).
  - intros n name Hn. cbn. rewrite lookup_singleton_ne; [done|].
    destruct n as [|n]; discriminate.
  - reflexivity.
  - cbn. lia.
  - discriminate.
  - repeat constructor; lia.
  - intros fn Hin. cbn.
    repeat (apply elem_of_cons in Hin as [->|Hin]; [lia|]).
    by apply elem_of_nil in Hin.
  - intros fn Hin. cbn.
    repeat (apply elem_of_cons in Hin as [->|Hin]; [by eexists|]).
    by apply elem_of_nil in Hin.
  - destruct (Hleast 3) as (least & Hfilter & _ & _ & Hmin);
      [by repeat constructor|].
    exists c', archived. split; [done|]. exists least. split; [done|].
    apply Hmin; [by repeat constructor|reflexivity].
Defined.

(** Frame 3 of the truncated file cannot be decoded: frame 2, which
    follows it in the input, is the one archived for second 1. *)
Lemma extract_frames_by_numbers_decode_gaps_witness :
  ∃ c' archived,
    extract_frames_by_numbers [3; 2] ["hd"] Example.truncated_ctx
      = (Ok tt, c') ∧
    filter (λ x, x / 2 = 2 / 2) archived = [2].
Proof.
  destruct (extract_frames_by_numbers_decode_gaps
              Example.truncated_ctx [3; 2] ["hd"])
    as (c' & archived & Hrun & _ & _ & Hfirst).
  - intros n name Hn. cbn. rewrite lookup_singleton_ne; [done|].
    destruct n as [|n]; discriminate.
  - cbn. lia.
  - discriminate.
  - intros fn Hin. cbn.
    repeat (apply elem_of_cons in Hin as [->|Hin]; [lia|]).
    by apply elem_of_nil in Hin.
  - destruct (Hfirst 2) as (first & Hsome & Hfilter).
    + by repeat constructor.
    + reflexivity.
    + vm_compute in Hsome. injection Hsome as <-.
      by exists c', archived.
Defined.

(** Saving two frames next to the demo file. *)
Lemma save_keyframes_files_witness :
  ∃ c',
    save_keyframes [Example.bright; Example.dark] [3; 0] ["out"]
      (Example.ctx_with Example.cut_video) = (Ok tt, c') ∧
    lookup_file (["out"], archive_name 2 3) (world c')
      = Some (ImageFile Example.bright) ∧
    lookup_file Example.demo_path (world c')
      = Some (VideoFile Example.cut_video).
Proof.
  destruct (save_keyframes_files (Example.ctx_with Example.cut_video)
              [Example.bright; Example.dark] [3; 0] ["out"])
    as (c' & Hrun & Hsaved & Hother).
  - intros n name Hn. cbn. rewrite lookup_singleton_ne; [done|].
    destruct n as [|n]; discriminate.
  - cbn. lia.
  - apply NoDup_cons. split; [|apply NoDup_singleton].
    intros Hin. apply list_elem_of_singleton in Hin. discriminate.
  - repeat constructor; lia.
  - exists c'. split; [done|]. split.
    + by apply (Hsaved 0%nat).
    + rewrite (Hother Example.demo_path); [reflexivity|].
      intros k idx _ _. discriminate.
Defined.

(** The two shots of the video with one cut. *)
Lemma extract_keyframes_inversion_witness :
  length [Example.dark; Example.bright] = 2%nat ∧
  ∃ start stop ci,
    shot_span [3; 6] 1 = Some (start, stop) ∧ 3 = start + ci.
Proof.
  destruct (extract_keyframes_inversion (v_frames Example.cut_video) [3; 6]
              [Example.dark; Example.bright] [0; 3])
    as (Hlen & _ & Hpairs).
  - vm_compute. reflexivity.
  - split; [done|].
    destruct (Hpairs 1%nat Example.bright 3)
      as (start & stop & ci & Hspan & _ & _ & _ & Hidx); [done..|].
    by exists start, stop, ci.
Defined.


(** The [try] statement on the video with one cut, temporary files not
    kept. *)
Lemma pipeline_try_finally_leaves_witness :
  ∃ r p',
    try_finally (pipeline_try ["out"] 0 30 320)
      (pipeline_finally ["out"] false)
      {| p_self := Example.opened Example.cut_video;
         p_world := Example.world_with Example.cut_video;
         mini_processor := None;
         compressed_video := None |} = (r, p') ∧
    cap_opened (cap (p_self p')) = false ∧
    fs (p_world p') !! ["out"; "temp"] = None.
Proof.
  destruct (pipeline_try_finally_leaves ["out"] 0 30 320 false
              {| p_self := Example.opened Example.cut_video;
                 p_world := Example.world_with Example.cut_video;
                 mini_processor := None;
                 compressed_video := None |})
    as (r & q & p' & _ & Hrun & Hclosed & _ & Hclean).
  exists r, p'. split; [exact Hrun|]. split; [exact Hclosed|].
  apply Hclean; reflexivity.
Defined.

(** Index -1 at 30 frames per second. *)
Lemma negative_index_not_recovered_witness :
  number_of_name (archive_name 30 (-1)) = None.
Proof. apply negative_index_not_recovered. lia. Defined.

(** The input file is gone: the compression fails. *)
Lemma pipeline_compression_failure_witness :
  ∃ c', process_video_pipeline ["out"] 0 30 320 false Example.orphan_ctx
          = (Err CalledProcessError, c').
Proof.
  destruct (pipeline_compression_failure Example.orphan_ctx ["out"] 0 30 320
              false) as (c' & evs & Hrun & _).
  - intros n name _. cbn. by rewrite lookup_empty.
  - intros n name _. cbn. by rewrite lookup_empty.
  - intros v Hv. discriminate.
  - by exists c'.
Defined.

